(** * EmbedPost: the connection manager of [backup/app.go]

    A shallow embedding of the Go type [Client] and of its methods, and the
    properties of the manager that the specification states about them.

    Layout of the development:
    - the data of [app.go]: configuration records, the [Client] struct, the
      constants of the serial library;
    - the outside world: handles, channels, the trace of observable effects and
      an oracle for what the operating system answers;
    - a small resumption monad [prog]: a method body is a tree of atomic steps,
      which can be run to completion ([run]) or interleaved with the reader
      goroutine ([exec]);
    - the methods, written after the source line by line;
    - the theorems. *)

From Stdlib Require Import String Ascii List Bool Arith NArith ZArith Lia.
From Stdlib.Strings Require Import Byte.
Import ListNotations.
Local Open Scope string_scope.
Local Open Scope list_scope.


(* ------------------------------------------------------------------ *)
(** ** Configuration types (app.go, lines 43-90) *)

(** [type StopBits string], [type Parity string], [type FlowControl string] *)
Definition StopBits := string.
Definition Parity := string.
Definition FlowControl := string.

Definition Stop1 : StopBits := "1".
Definition Stop1Half : StopBits := "1.5".
Definition Stop2 : StopBits := "2".

Definition ParityNone : Parity := "N".
Definition ParityOdd : Parity := "O".
Definition ParityEven : Parity := "E".
Definition ParityMark : Parity := "M".
Definition ParitySpace : Parity := "S".

Definition FlowNone : FlowControl := "none".
Definition FlowHardware : FlowControl := "hardware".
Definition FlowSoftware : FlowControl := "software".

Record TCPConfig := mkTCPConfig { tcp_Address : string }.
Record UDPConfig := mkUDPConfig { udp_Address : string }.

Record SerialConfig := mkSerialConfig {
  sc_PortName : string;
  sc_BaudRate : Z;
  sc_DataBits : Z;
  sc_StopBits : StopBits;
  sc_Parity : Parity;
  sc_FlowControl : FlowControl
}.

(** [SerialPortInfo] (lines 29-33) *)
Record SerialPortInfo := mkSerialPortInfo {
  Name : string;
  Description : string;
  IsOpen : bool
}.

(** The constants and the [Mode] struct of the serial library
    ([go.bug.st/serial]) that [app.go] uses. *)
Module serial.
Inductive StopBits := OneStopBit | OnePointFiveStopBits | TwoStopBits.
Inductive Parity := NoParity | OddParity | EvenParity | MarkParity | SpaceParity.
Record Mode := mkMode {
  m_BaudRate : Z;
  m_DataBits : Z;
  m_Parity : Parity;
  m_StopBits : StopBits
}.
End serial.

(** [getStopBits] (lines 283-294): a [switch] on the string with a default. *)
Definition getStopBits (stopBits : StopBits) : serial.StopBits :=
  if String.eqb stopBits Stop1 then serial.OneStopBit
  else if String.eqb stopBits Stop1Half then serial.OnePointFiveStopBits
  else if String.eqb stopBits Stop2 then serial.TwoStopBits
  else serial.OneStopBit.

(** [getParity] (lines 296-311) *)
Definition getParity (parity : Parity) : serial.Parity :=
  if String.eqb parity ParityNone then serial.NoParity
  else if String.eqb parity ParityOdd then serial.OddParity
  else if String.eqb parity ParityEven then serial.EvenParity
  else if String.eqb parity ParityMark then serial.MarkParity
  else if String.eqb parity ParitySpace then serial.SpaceParity
  else serial.NoParity.

(** [getPortDescription] (lines 277-280) returns the name itself. *)
Definition getPortDescription (portName : string) : string := portName.

(* ------------------------------------------------------------------ *)
(** ** Errors

    A Go [error] is a message; the constructors are the messages that
    [app.go] builds with [fmt.Errorf], the argument being the wrapped cause. *)

(** an error handed back by the [net] or the [serial] library *)
Definition OSError := string.

Inductive error :=
| ErrTCPDial (cause : OSError)          (* "TCP连接失败: %v",  line 103 *)
| ErrUDPResolve (cause : OSError)       (* "UDP地址解析失败: %v", line 121 *)
| ErrUDPDial (cause : OSError)          (* "UDP连接失败: %v",  line 126 *)
| ErrSerialOpen (cause : OSError)       (* "串口打开失败: %v", line 153 *)
| ErrSerialNotConnected                 (* "串口未连接",       lines 216, 335 *)
| ErrWriteFailed (cause : OSError)      (* "写入数据失败: %v", line 221 *)
| ErrCloseFailed (cause : OSError)      (* "关闭串口失败: %v", line 239 *)
| ErrGetPorts (cause : OSError)         (* "获取串口列表失败: %v", line 251 *)
| ErrTCPNotConnected                    (* "TCP未连接",        line 321 *)
| ErrUDPNotConnected                    (* "UDP未连接",        line 328 *)
| ErrUnknownConnType (connType : string)(* "未知的连接类型: %s", line 341 *)
| ErrTransport (cause : OSError).       (* the library's error, returned as it is:
                                           lines 324, 331, 338 *)

(* ------------------------------------------------------------------ *)
(** ** The outside world *)

(** The three session fields of [Client] have three Go types ([net.Conn],
    [*net.UDPConn], [serial.Port]); an open one is a handle.  [h_name] is the
    address or device name it was opened on: the operating system knows it,
    the Go value does not expose it. *)
Inductive Kind := TCP | UDP | Serial.

Record Handle := mkHandle { h_id : nat; h_name : string }.

(** a channel made by [make(chan struct{})] *)
Definition Chan := nat.

Inductive Payload :=
| NoPayload
| PString (s : string)
| PBytes (b : list byte).

(** What the methods do to the outside, in the order they do it. *)
Inductive Event :=
| EvDial (k : Kind) (address : string) (r : OSError + Handle)
      (* net.Dial("tcp", _), net.DialUDP("udp", nil, _) *)
| EvResolve (address : string) (r : option OSError)
      (* net.ResolveUDPAddr("udp", _) *)
| EvSerialOpen (portName : string) (mode : serial.Mode) (r : OSError + Handle)
      (* serial.Open *)
| EvClose (k : Kind) (h : Handle) (r : option OSError)      (* h.Close() *)
| EvWrite (k : Kind) (h : Handle) (data : list byte) (r : option OSError)
      (* h.Write(data) *)
| EvSetReadTimeout (h : Handle) (ms : nat)
| EvRead (h : Handle) (data : list byte) (r : option OSError)
| EvGetPortsList (ports : list string) (r : option OSError)
| EvEmit (topic : string) (payload : Payload)  (* runtime.EventsEmit *)
| EvChanClose (ch : Chan)                      (* close(ch) *)
| EvGo.                                        (* go func() { ... }() *)

(** What the operating system answers.  Every answer may depend on all that
    happened before (the trace) and on the arguments; [None] as error is
    Go's [nil]. *)
Record OS := mkOS {
  net_Dial : list Event -> string -> option OSError;
  net_ResolveUDPAddr : list Event -> string -> option OSError;
  net_DialUDP : list Event -> string -> option OSError;
  serial_Open : list Event -> string -> serial.Mode -> option OSError;
  serial_GetPortsList : list Event -> list string * option OSError;
  handle_Close : list Event -> Kind -> Handle -> option OSError;
  handle_Write : list Event -> Kind -> Handle -> list byte -> option OSError;
  port_Read : list Event -> Handle -> list byte * option OSError
}.

(** [Client] (lines 15-26).  [mu] is [true] while the mutex is held.  [ctx]
    is set once by [Startup] and only passed on to [runtime.EventsEmit]; it is
    left out. *)
Record Client := mkClient {
  tcpConn : option Handle;
  udpConn : option Handle;
  serialPort : option Handle;
  mu : bool;
  isReading : bool;
  stopRead : option Chan
}.

(** [NewClient] (lines 36-38): the zero value. *)
Definition NewClient : Client :=
  mkClient None None None false false None.

Record World := mkWorld {
  trace : list Event;
  nextHandle : nat;          (* the next fresh handle *)
  nextChan : nat;            (* the next fresh channel *)
  closedChans : list Chan    (* the channels closed so far *)
}.

Definition emptyWorld : World := mkWorld [] 0 0 [].

Record State := mkState { client : Client; world : World }.

Definition initState : State := mkState NewClient emptyWorld.

(** field updates *)
Definition set_tcpConn (v : option Handle) (c : Client) : Client :=
  mkClient v (udpConn c) (serialPort c) (mu c) (isReading c) (stopRead c).
Definition set_udpConn (v : option Handle) (c : Client) : Client :=
  mkClient (tcpConn c) v (serialPort c) (mu c) (isReading c) (stopRead c).
Definition set_serialPort (v : option Handle) (c : Client) : Client :=
  mkClient (tcpConn c) (udpConn c) v (mu c) (isReading c) (stopRead c).
Definition set_mu (v : bool) (c : Client) : Client :=
  mkClient (tcpConn c) (udpConn c) (serialPort c) v (isReading c) (stopRead c).
Definition set_isReading (v : bool) (c : Client) : Client :=
  mkClient (tcpConn c) (udpConn c) (serialPort c) (mu c) v (stopRead c).
Definition set_stopRead (v : option Chan) (c : Client) : Client :=
  mkClient (tcpConn c) (udpConn c) (serialPort c) (mu c) (isReading c) v.

Definition log (e : Event) (w : World) : World :=
  mkWorld (trace w ++ [e]) (nextHandle w) (nextChan w) (closedChans w).

Definition chan_closed (w : World) (ch : Chan) : bool :=
  existsb (Nat.eqb ch) (closedChans w).

(* ------------------------------------------------------------------ *)
(** ** Programs: trees of atomic steps

    [Act f k] performs the atomic step [f] on the state ([None]: the step
    cannot be taken now, the thread waits) and goes on as [k] of its result.
    [Go k] starts the reader goroutine and goes on as [k]. *)

Inductive prog (A : Type) : Type :=
| Ret (a : A)
| Panic
| Act (X : Type) (f : State -> option (X * State)) (k : X -> prog A)
| Go (k : prog A).

Arguments Ret {A} a.
Arguments Panic {A}.
Arguments Act {A X} f k.
Arguments Go {A} k.

Fixpoint bind {A B} (p : prog A) (g : A -> prog B) : prog B :=
  match p with
  | Ret a => g a
  | Panic => Panic
  | Act f k => Act f (fun x => bind (k x) g)
  | Go k => Go (bind k g)
  end.

Declare Scope prog_scope.
Delimit Scope prog_scope with prog.
Notation "x <- p ;; q" := (bind p (fun x => q))
  (at level 61, p at next level, right associativity) : prog_scope.
Notation "p ;; q" := (bind p (fun _ => q))
  (at level 61, right associativity) : prog_scope.
Local Open Scope prog_scope.

(** How a call ends. *)
Inductive Result (A : Type) :=
| Returned (a : A)
| Panicked
| Waiting.     (* stuck on the mutex *)

Arguments Returned {A} a.
Arguments Panicked {A}.
Arguments Waiting {A}.

(** Running a program alone, to its end. *)
Fixpoint run {A} (p : prog A) (s : State) : Result A * State :=
  match p with
  | Ret a => (Returned a, s)
  | Panic => (Panicked, s)
  | Act f k =>
      match f s with
      | Some (x, s') => run (k x) s'
      | None => (Waiting, s)
      end
  | Go k => run k (mkState (client s) (log EvGo (world s)))
  end.

(** *** Atomic steps *)

Definition step {X} (f : State -> X * State) : prog X :=
  Act (fun s => Some (f s)) Ret.

(** reading and writing a field of the [Client] *)
Definition load {X} (field : Client -> X) : prog X :=
  step (fun s => (field (client s), s)).

Definition store (upd : Client -> Client) : prog unit :=
  step (fun s => (tt, mkState (upd (client s)) (world s))).

(** [mu.Lock()]: waits while the mutex is held. *)
Definition Lock : prog unit :=
  Act (fun s => if mu (client s) then None
                else Some (tt, mkState (set_mu true (client s)) (world s))) Ret.

Definition Unlock : prog unit := store (set_mu false).

(** [defer mu.Unlock()]: the unlock runs when the body returns or panics. *)
Fixpoint defer_Unlock {A} (p : prog A) : prog A :=
  match p with
  | Ret a => Unlock ;; Ret a
  | Panic => Unlock ;; Panic
  | Act f k => Act f (fun x => defer_Unlock (k x))
  | Go k => Go (defer_Unlock k)
  end.

(** [mu.Lock(); defer mu.Unlock(); body] *)
Definition locked {A} (body : prog A) : prog A :=
  Lock ;; defer_Unlock body.

(** a method call through a field that holds [nil] panics *)
Definition deref {X} (o : option X) : prog X :=
  match o with
  | Some x => Ret x
  | None => Panic
  end.

Definition effect (e : Event) : prog unit :=
  step (fun s => (tt, mkState (client s) (log e (world s)))).

(** [runtime.EventsEmit(ctx, topic, payload)] *)
Definition EventsEmit (topic : string) (payload : Payload) : prog unit :=
  effect (EvEmit topic payload).

(** [make(chan struct{})] *)
Definition make_chan : prog Chan :=
  step (fun s =>
    let w := world s in
    (nextChan w,
     mkState (client s)
             (mkWorld (trace w) (nextHandle w) (S (nextChan w)) (closedChans w)))).

(** [close(ch)]: panics on a nil channel and on a closed one. *)
Definition close_chan (ch : option Chan) : prog unit :=
  ok <- step (fun s =>
    let w := world s in
    match ch with
    | None => (false, s)
    | Some c =>
        if chan_closed w c then (false, s)
        else (true,
              mkState (client s)
                      (mkWorld (trace w ++ [EvChanClose c]) (nextHandle w)
                               (nextChan w) (c :: closedChans w)))
    end) ;;
  if ok then Ret tt else Panic.

(** [case <-ch:] of a [select] with a [default]: taken iff [ch] is closed
    (nothing is ever sent on [stopRead]; a nil channel is never ready). *)
Definition chan_ready (ch : option Chan) : prog bool :=
  step (fun s =>
    (match ch with
     | None => false
     | Some c => chan_closed (world s) c
     end, s)).

(** What one turn of the goroutine's [for] loop tells the loop to do. *)
Inductive LoopCtl := Continue | Exit.

Record Sys (A : Type) := mkSys {
  sys_state : State;
  sys_fg : prog A;
  sys_readers : list (prog LoopCtl)   (* what is left of each one's turn *)
}.

Arguments mkSys {A} _ _ _.
Arguments sys_state {A} _.
Arguments sys_fg {A} _.
Arguments sys_readers {A} _.

Inductive Thread := Fg | Reader (i : nat).

Fixpoint replace_nth {X} (i : nat) (x : X) (l : list X) : list X :=
  match l, i with
  | [], _ => []
  | _ :: t, 0 => x :: t
  | y :: t, S j => y :: replace_nth j x t
  end.

Section Manager.

Variable os : OS.

(** *** Calls into the libraries *)

Definition fresh_handle (name : string) (w : World) : Handle :=
  mkHandle (nextHandle w) name.

Definition opened (e : Handle -> Event) (name : string) (s : State)
  : (OSError + Handle) * State :=
  let w := world s in
  let h := fresh_handle name w in
  (inr h,
   mkState (client s)
           (mkWorld (trace w ++ [e h]) (S (nextHandle w)) (nextChan w)
                    (closedChans w))).

(** [net.Dial("tcp", address)] *)
Definition call_net_Dial (address : string) : prog (OSError + Handle) :=
  step (fun s =>
    match net_Dial os (trace (world s)) address with
    | Some err =>
        (inl err, mkState (client s) (log (EvDial TCP address (inl err)) (world s)))
    | None => opened (fun h => EvDial TCP address (inr h)) address s
    end).

(** [net.ResolveUDPAddr("udp", address)] *)
Definition call_net_ResolveUDPAddr (address : string) : prog (option OSError) :=
  step (fun s =>
    let r := net_ResolveUDPAddr os (trace (world s)) address in
    (r, mkState (client s) (log (EvResolve address r) (world s)))).

(** [net.DialUDP("udp", nil, addr)] *)
Definition call_net_DialUDP (address : string) : prog (OSError + Handle) :=
  step (fun s =>
    match net_DialUDP os (trace (world s)) address with
    | Some err =>
        (inl err, mkState (client s) (log (EvDial UDP address (inl err)) (world s)))
    | None => opened (fun h => EvDial UDP address (inr h)) address s
    end).

(** [serial.Open(portName, mode)] *)
Definition call_serial_Open (portName : string) (mode : serial.Mode)
  : prog (OSError + Handle) :=
  step (fun s =>
    match serial_Open os (trace (world s)) portName mode with
    | Some err =>
        (inl err,
         mkState (client s) (log (EvSerialOpen portName mode (inl err)) (world s)))
    | None => opened (fun h => EvSerialOpen portName mode (inr h)) portName s
    end).

(** [h.Close()] *)
Definition call_Close (k : Kind) (h : Handle) : prog (option OSError) :=
  step (fun s =>
    let r := handle_Close os (trace (world s)) k h in
    (r, mkState (client s) (log (EvClose k h r) (world s)))).

(** [h.Write(data)]; the count it returns is dropped by every caller *)
Definition call_Write (k : Kind) (h : Handle) (data : list byte)
  : prog (option OSError) :=
  step (fun s =>
    let r := handle_Write os (trace (world s)) k h data in
    (r, mkState (client s) (log (EvWrite k h data r) (world s)))).

(** [h.SetReadTimeout(d)] *)
Definition call_SetReadTimeout (h : Handle) (ms : nat) : prog unit :=
  effect (EvSetReadTimeout h ms).

(** [h.Read(buffer)] with a buffer of [size] bytes: at most [size] bytes
    come back. *)
Definition call_Read (h : Handle) (size : nat) : prog (list byte * option OSError) :=
  step (fun s =>
    let '(data, r) := port_Read os (trace (world s)) h in
    let chunk := firstn size data in
    ((chunk, r), mkState (client s) (log (EvRead h chunk r) (world s)))).

(** [serial.GetPortsList()] *)
Definition call_GetPortsList : prog (list string * option OSError) :=
  step (fun s =>
    let '(ports, r) := serial_GetPortsList os (trace (world s)) in
    ((ports, r), mkState (client s) (log (EvGetPortsList ports r) (world s)))).

(* ---------------------------------------------------------------- *)
(** *** The methods of [Client] *)

(** [c.field.m(...)]: the field is read, and the call panics if it is nil. *)
Definition method {X} (field : Client -> option Handle) (m : Handle -> prog X)
  : prog X :=
  o <- load field ;; h <- deref o ;; m h.

(** [ConnectTCP] (lines 93-108) *)
Definition ConnectTCP (config : TCPConfig) : prog (option error) :=
  locked (
    old <- load tcpConn ;;
    (match old with
     | Some _ => method tcpConn (call_Close TCP) ;; Ret tt
     | None => Ret tt
     end) ;;
    r <- call_net_Dial (tcp_Address config) ;;
    match r with
    | inl err => Ret (Some (ErrTCPDial err))
    | inr conn => store (set_tcpConn (Some conn)) ;; Ret None
    end).

(** [ConnectUDP] (lines 111-131) *)
Definition ConnectUDP (config : UDPConfig) : prog (option error) :=
  locked (
    old <- load udpConn ;;
    (match old with
     | Some _ => method udpConn (call_Close UDP) ;; Ret tt
     | None => Ret tt
     end) ;;
    a <- call_net_ResolveUDPAddr (udp_Address config) ;;
    match a with
    | Some err => Ret (Some (ErrUDPResolve err))
    | None =>
        r <- call_net_DialUDP (udp_Address config) ;;
        match r with
        | inl err => Ret (Some (ErrUDPDial err))
        | inr conn => store (set_udpConn (Some conn)) ;; Ret None
        end
    end).

(** [startSerialRead] (lines 165-196): a new channel, the flag, and the
    goroutine ([reader_iteration] below is its loop body). *)
Definition startSerialRead : prog unit :=
  ch <- make_chan ;;
  store (set_stopRead (Some ch)) ;;
  store (set_isReading true) ;;
  Go (Ret tt).

(** [stopSerialRead] (lines 199-204) *)
Definition stopSerialRead : prog unit :=
  reading <- load isReading ;;
  if reading then
    store (set_isReading false) ;;
    ch <- load stopRead ;;
    close_chan ch
  else Ret tt.

(** [ConnectSerial] (lines 134-162) *)
Definition ConnectSerial (config : SerialConfig) : prog (option error) :=
  locked (
    old <- load serialPort ;;
    (match old with
     | Some _ =>
         stopSerialRead ;;
         method serialPort (call_Close Serial) ;;
         Ret tt
     | None => Ret tt
     end) ;;
    let mode := serial.mkMode (sc_BaudRate config) (sc_DataBits config)
                              (getParity (sc_Parity config))
                              (getStopBits (sc_StopBits config)) in
    r <- call_serial_Open (sc_PortName config) mode ;;
    match r with
    | inl err => Ret (Some (ErrSerialOpen err))
    | inr port =>
        store (set_serialPort (Some port)) ;;
        startSerialRead ;;
        EventsEmit "serial:connected" (PString (sc_PortName config)) ;;
        Ret None
    end).

(** One turn of the loop of the goroutine (lines 171-194); the buffer has
    1024 bytes and the read time-out is 100 ms. *)
Definition reader_iteration : prog LoopCtl :=
  reading <- load isReading ;;                    (* for c.isReading *)
  if negb reading then Ret Exit else
  ch <- load stopRead ;;
  stopped <- chan_ready ch ;;                     (* case <-c.stopRead: return *)
  if stopped then Ret Exit else
  sp <- load serialPort ;;
  match sp with
  | None => Ret Exit
  | Some _ =>
      method serialPort (fun h => call_SetReadTimeout h 100) ;;
      got <- method serialPort (fun h => call_Read h 1024) ;;
      match snd got with
      | Some _ => Ret Continue                    (* err != nil: continue *)
      | None =>
          if Nat.ltb 0 (List.length (fst got))
          then EventsEmit "serial:data" (PBytes (fst got)) ;; Ret Continue
          else Ret Continue
      end
  end.

(** [WriteSerial] (lines 211-225) *)
Definition WriteSerial (data : list byte) : prog (option error) :=
  locked (
    sp <- load serialPort ;;
    match sp with
    | None => Ret (Some ErrSerialNotConnected)
    | Some _ =>
        err <- method serialPort (fun h => call_Write Serial h data) ;;
        match err with
        | Some e => Ret (Some (ErrWriteFailed e))
        | None => Ret None
        end
    end).

(** [CloseSerial] (lines 228-245) *)
Definition CloseSerial : prog (option error) :=
  locked (
    sp <- load serialPort ;;
    match sp with
    | None => Ret None
    | Some _ =>
        stopSerialRead ;;
        err <- method serialPort (call_Close Serial) ;;
        match err with
        | Some e => Ret (Some (ErrCloseFailed e))
        | None =>
            store (set_serialPort None) ;;
            EventsEmit "serial:disconnected" NoPayload ;;
            Ret None
        end
    end).

(** [isCurrentPort] (lines 267-274): the comparison is a [TODO]; the body
    answers [true] whenever a port is open. *)
Definition isCurrentPort (portName : string) : prog bool :=
  sp <- load serialPort ;;
  match sp with
  | None => Ret false
  | Some _ => Ret true
  end.

(** The loop of [GetSerialPorts] (lines 255-262); [portInfos] is the slice
    built so far. *)
Fixpoint port_infos (ports : list string) (portInfos : list SerialPortInfo)
  : prog (list SerialPortInfo) :=
  match ports with
  | [] => Ret portInfos
  | port :: rest =>
      sp <- load serialPort ;;
      isOpen <- (match sp with              (* c.serialPort != nil && ... *)
                 | Some _ => isCurrentPort port
                 | None => Ret false
                 end) ;;
      port_infos rest
        (portInfos ++ [mkSerialPortInfo port (getPortDescription port) isOpen])
  end.

(** [GetSerialPorts] (lines 248-264); it does not take the mutex. *)
Definition GetSerialPorts : prog (list SerialPortInfo * option error) :=
  got <- call_GetPortsList ;;
  match snd got with
  | Some err => Ret ([], Some (ErrGetPorts err))
  | None => portInfos <- port_infos (fst got) [] ;; Ret (portInfos, None)
  end.

(** [SendData] (lines 314-343) *)
Definition SendData (connType : string) (data : list byte) : prog (option error) :=
  locked (
    if String.eqb connType "tcp" then
      conn <- load tcpConn ;;
      match conn with
      | None => Ret (Some ErrTCPNotConnected)
      | Some _ =>
          err <- method tcpConn (fun h => call_Write TCP h data) ;;
          Ret (option_map ErrTransport err)
      end
    else if String.eqb connType "udp" then
      conn <- load udpConn ;;
      match conn with
      | None => Ret (Some ErrUDPNotConnected)
      | Some _ =>
          err <- method udpConn (fun h => call_Write UDP h data) ;;
          Ret (option_map ErrTransport err)
      end
    else if String.eqb connType "serial" then
      sp <- load serialPort ;;
      match sp with
      | None => Ret (Some ErrSerialNotConnected)
      | Some _ =>
          err <- method serialPort (fun h => call_Write Serial h data) ;;
          Ret (option_map ErrTransport err)
      end
    else Ret (Some (ErrUnknownConnType connType))).

(** [Close] (lines 346-362) *)
Definition Close : prog unit :=
  locked (
    t <- load tcpConn ;;
    (match t with
     | Some _ => method tcpConn (call_Close TCP) ;; store (set_tcpConn None)
     | None => Ret tt
     end) ;;
    u <- load udpConn ;;
    (match u with
     | Some _ => method udpConn (call_Close UDP) ;; store (set_udpConn None)
     | None => Ret tt
     end) ;;
    sp <- load serialPort ;;
    (match sp with
     | Some _ => method serialPort (call_Close Serial) ;; store (set_serialPort None)
     | None => Ret tt
     end)).

(* ---------------------------------------------------------------- *)
(** *** The manager and its reader goroutines together

    The mutex orders the calls of the methods among themselves, so there is
    one foreground thread [sys_fg] (a call, or several one after another);
    the goroutines started by [startSerialRead] take no lock and run between
    any two atomic steps of it. *)

(** One atomic step of one thread; [None] when that thread cannot move
    (it has ended, panicked, or waits for the mutex). *)
Definition sched {A} (t : Thread) (y : Sys A) : option (Sys A) :=
  match t with
  | Fg =>
      match sys_fg y with
      | Act f k =>
          match f (sys_state y) with
          | Some (x, s') => Some (mkSys s' (k x) (sys_readers y))
          | None => None
          end
      | Go k =>
          let s := sys_state y in
          Some (mkSys (mkState (client s) (log EvGo (world s))) k
                      (sys_readers y ++ [reader_iteration]))
      | Ret _ | Panic => None
      end
  | Reader i =>
      match nth_error (sys_readers y) i with
      | Some (Act f k) =>
          match f (sys_state y) with
          | Some (x, s') =>
              Some (mkSys s' (sys_fg y) (replace_nth i (k x) (sys_readers y)))
          | None => None
          end
      | Some (Ret Continue) =>
          Some (mkSys (sys_state y) (sys_fg y)
                      (replace_nth i reader_iteration (sys_readers y)))
      | _ => None
      end
  end.

(** A schedule, step by step. *)
Fixpoint exec {A} (schedule : list Thread) (y : Sys A) : option (Sys A) :=
  match schedule with
  | [] => Some y
  | t :: rest =>
      match sched t y with
      | Some y' => exec rest y'
      | None => None
      end
  end.

End Manager.

(* ------------------------------------------------------------------ *)
(** ** States the methods can be called in *)

(** Between two calls the mutex is free; the flag [isReading] is set only
    together with a channel that is still open; channels are numbered in the
    order they are made.  [NewClient] is such a state ([initState_wf]) and
    every method keeps it so ([methods_keep_wf]). *)
Definition wf (s : State) : Prop :=
  mu (client s) = false /\
  (isReading (client s) = true ->
   exists ch, stopRead (client s) = Some ch /\ chan_closed (world s) ch = false) /\
  (forall ch, stopRead (client s) = Some ch -> ch < nextChan (world s)) /\
  (forall ch, In ch (closedChans (world s)) -> ch < nextChan (world s)).

(** A call ends well when it returns (it neither panics nor waits for ever)
    and leaves such a state. *)
Definition ends_well {A} (p : prog A) (s : State) : Prop :=
  (exists a, fst (run p s) = Returned a) /\ wf (snd (run p s)).

(** whether a serial session is stored *)
Definition has_session (c : Client) : bool :=
  match serialPort c with
  | Some _ => true
  | None => false
  end.

(** The calls a user of the manager can make. *)
Inductive Call :=
| CallConnectTCP (config : TCPConfig)
| CallConnectUDP (config : UDPConfig)
| CallConnectSerial (config : SerialConfig)
| CallWriteSerial (data : list byte)
| CallCloseSerial
| CallGetSerialPorts
| CallSendData (connType : string) (data : list byte)
| CallClose.

Definition invoke (os : OS) (c : Call) : prog unit :=
  match c with
  | CallConnectTCP config => ConnectTCP os config ;; Ret tt
  | CallConnectUDP config => ConnectUDP os config ;; Ret tt
  | CallConnectSerial config => ConnectSerial os config ;; Ret tt
  | CallWriteSerial data => WriteSerial os data ;; Ret tt
  | CallCloseSerial => CloseSerial os ;; Ret tt
  | CallGetSerialPorts => GetSerialPorts os ;; Ret tt
  | CallSendData connType data => SendData os connType data ;; Ret tt
  | CallClose => Close os
  end.

(** The state after a sequence of calls, each run to its end. *)
Fixpoint after (os : OS) (calls : list Call) (s : State) : State :=
  match calls with
  | [] => s
  | c :: rest => after os rest (snd (run (invoke os c) s))
  end.

(** What a call added to the trace. *)
Definition events_of {A} (p : prog A) (s : State) : list Event :=
  skipn (List.length (trace (world s))) (trace (world (snd (run p s)))).

Definition is_close (e : Event) : bool :=
  match e with
  | EvClose _ _ _ => true
  | _ => false
  end.

(** The notifications in a trace, in order. *)
Definition emitted (tr : list Event) : list (string * Payload) :=
  flat_map (fun e => match e with
                     | EvEmit t p => [(t, p)]
                     | _ => []
                     end) tr.

(** How many of the three session fields hold a session. *)
Definition present {X} (o : option X) : nat :=
  match o with
  | Some _ => 1
  | None => 0
  end.

Definition sessions (c : Client) : nat :=
  present (tcpConn c) + present (udpConn c) + present (serialPort c).

(* ------------------------------------------------------------------ *)
(** ** A concrete operating system for the examples

    Two serial devices, [COM3] and [COM4]; every dial succeeds; a closed
    handle refuses reads and writes; an open port has the bytes [0x41 0x42]
    ready whenever it is read. *)

Definition handle_eqb (a b : Handle) : bool :=
  Nat.eqb (h_id a) (h_id b) && String.eqb (h_name a) (h_name b).

Definition closes (h : Handle) (e : Event) : bool :=
  match e with
  | EvClose _ h' _ => handle_eqb h h'
  | _ => false
  end.

Definition deviceOS : OS :=
  mkOS (fun _ _ => None)
       (fun _ _ => None)
       (fun _ _ => None)
       (fun _ portName _ =>
          if String.eqb portName "COM3" || String.eqb portName "COM4"
          then None else Some "no such device")
       (fun _ => (["COM3"; "COM4"], None))
       (fun _ _ _ => None)
       (fun tr _ h _ => if existsb (closes h) tr then Some "port closed" else None)
       (fun tr h => if existsb (closes h) tr then ([], Some "port closed")
                    else ([x41; x42], None)).

Definition com3 : SerialConfig :=
  mkSerialConfig "COM3" 9600 8 Stop1 ParityNone FlowNone.

Definition com9 : SerialConfig :=
  mkSerialConfig "COM9" 9600 8 Stop1 ParityNone FlowNone.

Definition localhost : TCPConfig := mkTCPConfig "127.0.0.1:9000".

(** The states of the examples. *)

(** after [ConnectSerial] on [COM3] *)
Definition serial_state : State :=
  after deviceOS [CallConnectSerial com3] initState.

(** after [ConnectTCP] *)
Definition tcp_state : State :=
  after deviceOS [CallConnectTCP localhost] initState.

(** after a [ConnectSerial] that could not open its device ([COM9]) while the
    session on [COM3] was stored *)
Definition failed_reconnect_state : State :=
  after deviceOS [CallConnectSerial com3; CallConnectSerial com9] initState.

(** after [ConnectSerial] and then [Close] *)
Definition closed_all_state : State :=
  after deviceOS [CallConnectSerial com3; CallClose] initState.

(* ------------------------------------------------------------------ *)
(** ** Notions the statements use *)

(** releasing the mutex *)
Definition unlock (s : State) : State :=
  mkState (set_mu false (client s)) (world s).

(** what retiring the read loop ([stopSerialRead]) adds to the trace *)
Definition stop_events (c : Client) : list Event :=
  match isReading c, stopRead c with
  | true, Some ch => [EvChanClose ch]
  | _, _ => []
  end.

(** what closing the stored session of kind [k] adds to the trace *)
Definition close_events (os : OS) (k : Kind) (old : option Handle) (tr : list Event)
  : list Event :=
  match old with
  | Some h => [EvClose k h (handle_Close os tr k h)]
  | None => []
  end.

(** no handle and no channel is closed in [evs] *)
Definition no_close (evs : list Event) : Prop :=
  forall e, In e evs -> is_close e = false /\ (forall ch, e <> EvChanClose ch).

(** The session field that [SendData] looks at for a kind string. *)
Definition field_of (connType : string) (c : Client) : option Handle :=
  if String.eqb connType "tcp" then tcpConn c
  else if String.eqb connType "udp" then udpConn c
  else if String.eqb connType "serial" then serialPort c
  else None.

(** The error classes of the specification (its section 7). *)
Inductive ErrorKind :=
| OpenFailed
| NotConnected
| WrongTransport
| UnknownTransportKind
| WriteFailed
| CloseFailed
| EnumerationFailed.

(** The specification's reading of [SendData], for any way [classify] of
    sorting the errors of [app.go] into the classes of the specification:
    nothing is written when the session of the requested kind is missing, and
    the error is [NotConnected] when no session at all is stored but
    [WrongTransport] when one of another kind is. *)
Definition SendData_as_specified (os : OS) (classify : error -> ErrorKind) : Prop :=
  forall s connType data,
    wf s ->
    connType = "tcp" \/ connType = "udp" \/ connType = "serial" ->
    field_of connType (client s) = None ->
    exists e,
      run (SendData os connType data) s = (Returned (Some e), s) /\
      classify e = if Nat.eqb (sessions (client s)) 0
                   then NotConnected else WrongTransport.

(** The specification's exclusivity: after any [Connect] at most one of the
    three session fields holds a session. *)
Definition exclusive_after_connect : Prop :=
  forall os s c,
    wf s ->
    (exists config, c = CallConnectTCP config) \/
    (exists config, c = CallConnectUDP config) \/
    (exists config, c = CallConnectSerial config) ->
    sessions (client (after os [c] s)) <= 1.

(** *** Schedules *)

(** [ConnectSerial] runs up to and including the [go] statement (8 steps);
    the goroutine makes one full turn of its loop (9 steps); [ConnectSerial]
    emits [serial:connected] and unlocks (2 steps). *)
Definition early_reader : list Thread :=
  repeat Fg 8 ++ repeat (Reader 0) 9 ++ repeat Fg 2.

(** [ConnectSerial] runs to its end (10 steps); the goroutine goes as far as
    its [Read] (8 steps); [CloseSerial] runs to its end (11 steps); the
    goroutine takes its next step, the [EventsEmit] of what it read. *)
Definition late_reader : list Thread :=
  repeat Fg 10 ++ repeat (Reader 0) 8 ++ repeat Fg 11 ++ [Reader 0].

(** [ConnectSerial] and then [CloseSerial], as two calls of one caller *)
Definition connect_then_close : prog (option error * option error) :=
  r1 <- ConnectSerial deviceOS com3 ;;
  r2 <- CloseSerial deviceOS ;;
  Ret (r1, r2).

(** the notifications the sink has received at the end of a schedule *)
Definition notifications {A} (y : option (Sys A)) : list (string * Payload) :=
  match y with
  | Some y' => emitted (trace (world (sys_state y')))
  | None => []
  end.

(** what is left of the foreground call at the end of a schedule *)
Definition outcome {A} (y : option (Sys A)) : option (prog A) :=
  option_map sys_fg y.

(** An atomic step that writes no field of the [Client] and neither makes nor
    closes a channel. *)
Definition keeps_client {X} (f : State -> option (X * State)) : Prop :=
  forall s x s', f s = Some (x, s') ->
    client s' = client s /\
    closedChans (world s') = closedChans (world s) /\
    nextChan (world s') = nextChan (world s).

(** A program that only looks: all its steps are such, and it starts no
    goroutine. *)
Fixpoint observer {A} (p : prog A) : Prop :=
  match p with
  | Ret _ => True
  | Panic => True
  | Act f k => keeps_client f /\ forall x, observer (k x)
  | Go _ => False
  end.

(* ------------------------------------------------------------------ *)
(** ** Further notions for the statements about the methods *)

(** the [serial.Mode] that [ConnectSerial] builds from a configuration
    (lines 144-149) *)
Definition mode_of (config : SerialConfig) : serial.Mode :=
  serial.mkMode (sc_BaudRate config) (sc_DataBits config)
                (getParity (sc_Parity config))
                (getStopBits (sc_StopBits config)).

(** what [ConnectSerial] does to the stored session before it opens the new
    one: it retires the read loop and closes the handle *)
Definition retire_events (os : OS) (s : State) : list Event :=
  match serialPort (client s) with
  | Some h =>
      stop_events (client s) ++
      close_events os Serial (Some h) (trace (world s) ++ stop_events (client s))
  | None => []
  end.

(** what [Close] adds to the trace: the stored sessions are closed in the
    order TCP, UDP, serial *)
Definition close_all_events (os : OS) (s : State) : list Event :=
  let tr := trace (world s) in
  let e1 := close_events os TCP (tcpConn (client s)) tr in
  let e2 := close_events os UDP (udpConn (client s)) (tr ++ e1) in
  let e3 := close_events os Serial (serialPort (client s)) ((tr ++ e1) ++ e2) in
  e1 ++ e2 ++ e3.

(** [ConnectSerial] and then [CloseSerial], as two calls of one caller *)
Definition connect_close (os : OS) (config : SerialConfig)
  : prog (option error * option error) :=
  r1 <- ConnectSerial os config ;;
  r2 <- CloseSerial os ;;
  Ret (r1, r2).

(** [ConnectSerial] twice, as two calls of one caller *)
Definition connect_twice (os : OS) (config1 config2 : SerialConfig)
  : prog (option error * option error) :=
  r1 <- ConnectSerial os config1 ;;
  r2 <- ConnectSerial os config2 ;;
  Ret (r1, r2).

(** [ConnectSerial] runs to its end (10 steps); the goroutine passes the test
    [c.serialPort == nil] of its loop (4 steps); [CloseSerial] runs to its end
    (11 steps); the goroutine goes on to [c.serialPort.SetReadTimeout]. *)
Definition reader_after_nil_check : list Thread :=
  repeat Fg 10 ++ repeat (Reader 0) 4 ++ repeat Fg 11 ++ [Reader 0].

(** The first [ConnectSerial] runs to its end (10 steps); its goroutine
    passes the test [c.serialPort == nil] (4 steps); the second
    [ConnectSerial] runs to its end (16 steps); the first goroutine goes on
    to [c.serialPort.SetReadTimeout] (2 steps). *)
Definition reader_across_replacement : list Thread :=
  repeat Fg 10 ++ repeat (Reader 0) 4 ++ repeat Fg 16 ++ repeat (Reader 0) 2.

(** a schedule in which only goroutines move *)
Definition readers_only (schedule : list Thread) : Prop :=
  Forall (fun t => t <> Fg) schedule.

(* ------------------------------------------------------------------ *)
(** ** The front end (App.tsx): what it does to the data it sends and shows

    A JavaScript string is a sequence of UTF-16 code units; [hexStringToBytes]
    counts and cuts in code units. *)

Definition jsstring := list N.

(** the code units of an ASCII text *)
Definition units (s : string) : jsstring :=
  map N_of_ascii (list_ascii_of_string s).

(** [\s] of a regular expression, and the white space [parseInt] skips: the
    same code units (WhiteSpace and LineTerminator of ECMAScript). *)
Definition is_space (c : N) : bool :=
  ((9 <=? c) && (c <=? 13) || (c =? 32) || (c =? 160) || (c =? 5760)
   || (8192 <=? c) && (c <=? 8202) || (c =? 8232) || (c =? 8233)
   || (c =? 8239) || (c =? 8287) || (c =? 12288) || (c =? 65279))%N.

(** [hex.replace(/\s+/g, '')] *)
Definition remove_spaces (s : jsstring) : jsstring :=
  filter (fun c => negb (is_space c)) s.

(** [hex.replace(/0x/g, '')]: the matches are found from left to right and do
    not overlap; what the removal brings together is not looked at again. *)
Fixpoint remove_0x (s : jsstring) : jsstring :=
  match s with
  | [] => []
  | c :: rest =>
      match rest with
      | d :: rest' =>
          if ((c =? 48) && (d =? 120))%N then remove_0x rest'
          else c :: remove_0x rest
      | [] => [c]
      end
  end.

(** the value of a digit of radix 16: [0-9], [a-f], [A-F] *)
Definition hex_digit (c : N) : option Z :=
  if ((48 <=? c) && (c <=? 57))%N then Some (Z.of_N c - 48)%Z
  else if ((97 <=? c) && (c <=? 102))%N then Some (Z.of_N c - 87)%Z
  else if ((65 <=? c) && (c <=? 70))%N then Some (Z.of_N c - 55)%Z
  else None.

(** the values of the longest prefix of [s] made of digits *)
Fixpoint leading_digits (s : jsstring) : list Z :=
  match s with
  | [] => []
  | c :: rest =>
      match hex_digit c with
      | Some v => v :: leading_digits rest
      | None => []
      end
  end.

Fixpoint skip_spaces (s : jsstring) : jsstring :=
  match s with
  | [] => []
  | c :: rest => if is_space c then skip_spaces rest else s
  end.

(** [parseInt(s, 16)] of ECMAScript; [None] is [NaN].  White space in front
    is skipped, then a sign, then a prefix [0x] or [0X]; the digits that
    follow are read up to the first code unit that is no digit, and there must
    be one at least.  (The number is exact for up to 13 digits; it is called
    on two code units here.  Minus zero is zero.) *)
Definition parseInt16 (s : jsstring) : option Z :=
  let s := skip_spaces s in
  let signed :=
    match s with
    | c :: rest =>
        if (c =? 45)%N then ((-1)%Z, rest)
        else if (c =? 43)%N then (1%Z, rest)
        else (1%Z, s)
    | [] => (1%Z, s)
    end in
  let body :=
    match snd signed with
    | c :: d :: rest =>
        if ((c =? 48) && ((d =? 120) || (d =? 88)))%N then rest
        else snd signed
    | _ => snd signed
    end in
  match leading_digits body with
  | [] => None
  | ds => Some (fst signed * fold_left (fun acc d => 16 * acc + d) ds 0)%Z
  end.

(** The loop of [hexStringToBytes]: two code units at a time ([substr(i, 2)]);
    a [NaN] throws; storing into the [Uint8Array] keeps the value modulo
    256. *)
Fixpoint hex_pairs (hex : jsstring) : option (list Z) :=
  match hex with
  | [] => Some []
  | c :: rest =>
      match rest with
      | d :: rest' =>
          match parseInt16 [c; d] with
          | None => None
          | Some byte =>
              match hex_pairs rest' with
              | None => None
              | Some bytes => Some ((byte mod 256)%Z :: bytes)
              end
          end
      | [] =>
          match parseInt16 [c] with
          | None => None
          | Some byte => Some [(byte mod 256)%Z]
          end
      end
  end.

(** [hexStringToBytes] (App.tsx, lines 140-156); [None] when it throws. *)
Definition hexStringToBytes (hex : jsstring) : option (list Z) :=
  let hex := remove_0x (remove_spaces hex) in
  let hex := if Nat.eqb (Nat.modulo (List.length hex) 2) 0 then hex
             else 48%N :: hex in
  hex_pairs hex.

(** [[...prev, text].slice(-100)] (line 121): the last 100 entries. *)
Definition slice_last {T} (n : nat) (l : list T) : list T :=
  skipn (List.length l - n) l.

(** The handler of [serial:data] (lines 119-122): what [receivedData]
    becomes; [decode] is [new TextDecoder().decode]. *)
Definition onSerialData {T} (decode : list Z -> T) (prev : list T) (data : list Z)
  : list T :=
  slice_last 100 (prev ++ [decode data]).

(** One byte as the comment of [hexStringToBytes] lets it be written: white
    space in front (or none), the prefix [0x] (or none), two digits. *)
Definition HexItem := (jsstring * bool * (N * N))%type.

Definition render_item (it : HexItem) : jsstring :=
  let '(space, prefix, (hi, lo)) := it in
  space ++ (if prefix then [48%N; 120%N] else []) ++ [hi; lo].

Definition well_written (it : HexItem) : Prop :=
  let '(space, prefix, (hi, lo)) := it in
  Forall (fun c => is_space c = true) space /\
  hex_digit hi <> None /\ hex_digit lo <> None.

Definition digit_value (c : N) : Z :=
  match hex_digit c with
  | Some v => v
  | None => 0%Z
  end.

Definition item_value (it : HexItem) : Z :=
  let '(_, _, (hi, lo)) := it in
  (16 * digit_value hi + digit_value lo)%Z.

(** what is left of an item when the white space is removed, and when the
    prefix is removed too *)
Definition bare_item (it : HexItem) : jsstring :=
  let '(_, prefix, (hi, lo)) := it in
  (if prefix then [48%N; 120%N] else []) ++ [hi; lo].

Definition digits_of (it : HexItem) : jsstring :=
  let '(_, _, (hi, lo)) := it in [hi; lo].

(** the first code unit, if any, is not [x] *)
Definition no_x_first (s : jsstring) : Prop :=
  match s with
  | c :: _ => c <> 120%N
  | [] => True
  end.


(* ------------------------------------------------------------------ *)
(** ** Running programs: general facts *)

Lemma run_bind {A B} (p : prog A) (g : A -> prog B) (s : State) :
  run (bind p g) s =
  match run p s with
  | (Returned a, s') => run (g a) s'
  | (Panicked, s') => (Panicked, s')
  | (Waiting, s') => (Waiting, s')
  end.
Proof.
  revert s; induction p as [a | | X f k IH | k IH]; intros s; simpl.
  - destruct (run (g a) s); reflexivity.
  - reflexivity.
  - destruct (f s) as [[x s'] | ]; [apply IH | reflexivity].
  - apply IH.
Qed.

Lemma run_defer_Unlock {A} (p : prog A) (s : State) :
  run (defer_Unlock p) s =
  match run p s with
  | (Returned a, s') => (Returned a, unlock s')
  | (Panicked, s') => (Panicked, unlock s')
  | (Waiting, s') => (Waiting, s')
  end.
Proof.
  revert s; induction p as [a | | X f k IH | k IH]; intros s; simpl.
  - reflexivity.
  - reflexivity.
  - destruct (f s) as [[x s'] | ]; [apply IH | reflexivity].
  - apply IH.
Qed.

(** A method that takes the mutex runs its body with the mutex held and
    gives it back, also when the body panics. *)
Lemma run_locked {A} (p : prog A) (s : State) :
  mu (client s) = false ->
  run (locked p) s =
  match run p (mkState (set_mu true (client s)) (world s)) with
  | (Returned a, s') => (Returned a, unlock s')
  | (Panicked, s') => (Panicked, unlock s')
  | (Waiting, s') => (Waiting, s')
  end.
Proof.
  intros Hmu. unfold locked, Lock. simpl. rewrite Hmu.
  apply run_defer_Unlock.
Qed.

(** While the mutex is held, a second call waits. *)
Lemma run_locked_waits {A} (p : prog A) (s : State) :
  mu (client s) = true -> run (locked p) s = (Waiting, s).
Proof. intros Hmu. unfold locked, Lock. simpl. rewrite Hmu. reflexivity. Qed.

Lemma skipn_length_nil {X} (l : list X) : skipn (List.length l) l = [].
Proof. induction l; simpl; auto. Qed.

Lemma skipn_length_app {X} (l l' : list X) : skipn (List.length l) (l ++ l') = l'.
Proof. induction l; simpl; auto. Qed.

Lemma events_of_eq {A} (p : prog A) (s : State) (evs : list Event) :
  trace (world (snd (run p s))) = trace (world s) ++ evs ->
  events_of p s = evs.
Proof. unfold events_of. intros ->. apply skipn_length_app. Qed.

(** Taking the state apart into its fields, so that a method body computes. *)
Ltac open_state s :=
  let c := fresh "c" in
  let w := fresh "w" in
  destruct s as [c w];
  let tc := fresh "tc" in
  let uc := fresh "uc" in
  let sp := fresh "sp" in
  let m := fresh "m" in
  let rd := fresh "rd" in
  let ch := fresh "ch" in
  destruct c as [tc uc sp m rd ch];
  let tr := fresh "tr" in
  let nh := fresh "nh" in
  let nc := fresh "nc" in
  let cl := fresh "cl" in
  destruct w as [tr nh nc cl];
  simpl in *.

(** Case analysis on what the operating system answers. *)
Ltac ask_os :=
  match goal with
  | |- context [net_Dial ?o ?t ?a] => destruct (net_Dial o t a) eqn:?
  | |- context [net_ResolveUDPAddr ?o ?t ?a] =>
      destruct (net_ResolveUDPAddr o t a) eqn:?
  | |- context [net_DialUDP ?o ?t ?a] => destruct (net_DialUDP o t a) eqn:?
  | |- context [serial_Open ?o ?t ?a ?m] => destruct (serial_Open o t a m) eqn:?
  | |- context [serial_GetPortsList ?o ?t] =>
      destruct (serial_GetPortsList o t) eqn:?
  | |- context [handle_Close ?o ?t ?k ?h] => destruct (handle_Close o t k h) eqn:?
  | |- context [handle_Write ?o ?t ?k ?h ?d] =>
      destruct (handle_Write o t k h d) eqn:?
  | |- context [port_Read ?o ?t ?h] => destruct (port_Read o t h) eqn:?
  end.

Ltac runit := simpl; repeat (ask_os; simpl).

(* ------------------------------------------------------------------ *)
(** ** Every method returns and keeps the state well formed *)

Lemma existsb_eqb_false (n : nat) (l : list nat) :
  (forall x, In x l -> x < n) -> existsb (Nat.eqb n) l = false.
Proof.
  intros H. destruct (existsb (Nat.eqb n) l) eqn:E; [ | reflexivity].
  apply existsb_exists in E. destruct E as [x [Hin Heq]].
  apply Nat.eqb_eq in Heq. subst x. apply H in Hin. lia.
Qed.

Ltac break_wf :=
  match goal with
  | H : wf _ |- _ =>
      let Hmu := fresh "Hmu" in
      let Hrd := fresh "Hrd" in
      let Hch := fresh "Hch" in
      let Hcl := fresh "Hcl" in
      destruct H as [Hmu [Hrd [Hch Hcl]]]
  end.

Ltac wf_done :=
  unfold wf, chan_closed in *; simpl in *;
  repeat match goal with
         | H : ?a = ?a -> _ |- _ => specialize (H eq_refl)
         | H : exists _, _ |- _ => destruct H
         | H : _ /\ _ |- _ => destruct H
         end;
  repeat split; intros;
  repeat match goal with
         | H : false = true |- _ => discriminate H
         | H : _ \/ _ |- _ => destruct H
         | H : Some _ = Some _ |- _ => injection H as H
         end; subst;
  try assumption;
  try match goal with
      | |- exists _, Some ?c = Some _ /\ _ =>
          exists c; split; [reflexivity | ]
      end;
  try assumption;
  try match goal with
      | |- Nat.eqb ?n ?c || _ = false =>
          apply orb_false_iff; split;
          [apply Nat.eqb_neq | apply existsb_eqb_false]; intros
      end;
  try match goal with
      | |- existsb (Nat.eqb ?n) _ = false => apply existsb_eqb_false; intros
      end;
  try match goal with
      | Hc : forall ch, Some ?c = Some ch -> _ |- _ => pose proof (Hc c eq_refl)
      end;
  try match goal with
      | Hc : forall ch, In ch ?cl -> _, Hi : In ?x ?cl |- _ => pose proof (Hc x Hi)
      end;
  try solve [eauto | lia | congruence].

Ltac method_ends_well s :=
  let H := fresh "H" in
  intros H; break_wf; open_state s; subst; unfold ends_well;
  repeat match goal with
         | o : option Handle |- _ => destruct o
         end;
  runit;
  (split; [eexists; reflexivity | ]); wf_done.

Lemma ConnectTCP_ends_well os config s : wf s -> ends_well (ConnectTCP os config) s.
Proof. method_ends_well s. Qed.

Lemma ConnectUDP_ends_well os config s : wf s -> ends_well (ConnectUDP os config) s.
Proof. method_ends_well s. Qed.

Lemma ConnectSerial_ends_well os config s :
  wf s -> ends_well (ConnectSerial os config) s.
Proof.
  intros H. break_wf. open_state s. subst m. unfold ends_well.
  destruct sp as [h|]; destruct rd; simpl;
    [destruct (Hrd eq_refl) as [c0 [-> Hc]]; simpl; rewrite Hc | | | ];
    runit; (split; [eexists; reflexivity | ]); wf_done.
Qed.

Lemma WriteSerial_ends_well os data s : wf s -> ends_well (WriteSerial os data) s.
Proof. method_ends_well s. Qed.

Lemma CloseSerial_ends_well os s : wf s -> ends_well (CloseSerial os) s.
Proof.
  intros H. break_wf. open_state s. subst m. unfold ends_well.
  destruct sp as [h|]; destruct rd; simpl;
    [destruct (Hrd eq_refl) as [c0 [-> Hc]]; simpl; rewrite Hc | | | ];
    runit; (split; [eexists; reflexivity | ]); wf_done.
Qed.

Lemma SendData_ends_well os connType data s :
  wf s -> ends_well (SendData os connType data) s.
Proof.
  intros H. unfold SendData.
  destruct (String.eqb connType "tcp"); [ | destruct (String.eqb connType "udp");
    [ | destruct (String.eqb connType "serial")]]; revert H; method_ends_well s.
Qed.

Lemma Close_ends_well os s : wf s -> ends_well (Close os) s.
Proof. method_ends_well s. Qed.

(** The loop of [GetSerialPorts] changes nothing and gives every port the same
    flag: whether a serial session is stored. *)
Lemma run_port_infos ports acc s :
  run (port_infos ports acc) s =
  (Returned (acc ++ map (fun port => mkSerialPortInfo port (getPortDescription port)
                                      (has_session (client s))) ports), s).
Proof.
  revert acc. induction ports as [ | port rest IH]; intros acc.
  - simpl. rewrite app_nil_r. reflexivity.
  - open_state s. unfold has_session in *; simpl in *.
    destruct sp; simpl; rewrite IH; rewrite <- app_assoc; reflexivity.
Qed.

Lemma GetSerialPorts_ends_well os s : wf s -> ends_well (GetSerialPorts os) s.
Proof.
  intros H. unfold ends_well, GetSerialPorts. rewrite run_bind.
  break_wf. open_state s. subst. runit.
  destruct o; simpl.
  - split; [eexists; reflexivity | ]. wf_done.
  - rewrite run_bind, run_port_infos. simpl.
    split; [eexists; reflexivity | ]. wf_done.
Qed.

Lemma ends_well_discard {A} (p : prog A) (s : State) :
  ends_well p s -> ends_well (p ;; Ret tt) s.
Proof.
  unfold ends_well. rewrite run_bind.
  destruct (run p s) as [r s']. simpl. intros [[a Ha] Hw]. subst r. simpl.
  split; [eexists; reflexivity | exact Hw].
Qed.

Lemma invoke_ends_well os c s : wf s -> ends_well (invoke os c) s.
Proof.
  intros H. destruct c; unfold invoke; try apply ends_well_discard.
  - apply ConnectTCP_ends_well, H.
  - apply ConnectUDP_ends_well, H.
  - apply ConnectSerial_ends_well, H.
  - apply WriteSerial_ends_well, H.
  - apply CloseSerial_ends_well, H.
  - apply GetSerialPorts_ends_well, H.
  - apply SendData_ends_well, H.
  - apply Close_ends_well, H.
Qed.

(** Whatever calls are made, one after another, the state stays well
    formed: no call panics and none is left waiting. *)
Lemma methods_keep_wf os calls s : wf s -> wf (after os calls s).
Proof.
  revert s. induction calls as [ | c rest IH]; intros s H; simpl.
  - exact H.
  - apply IH. apply (invoke_ends_well os c s H).
Qed.

Lemma initState_wf : wf initState.
Proof. unfold wf; simpl. repeat split; intros; try discriminate; contradiction. Qed.

Lemma serial_state_wf : wf serial_state.
Proof.
  unfold wf. vm_compute. repeat split.
  - intros _. exists 0. split; reflexivity.
  - intros c0 H. injection H as <-. repeat constructor.
  - intros c0 [].
Qed.

(* ------------------------------------------------------------------ *)
(** ** The reader goroutine beside the calls *)

Lemma observer_bind {A B} (p : prog A) (g : A -> prog B) :
  observer p -> (forall a, observer (g a)) -> observer (bind p g).
Proof.
  intros Hp Hg. induction p as [a | | X f k IH | k IH]; simpl in *; auto.
  destruct Hp as [Hf Hk]. split; auto.
Qed.

Lemma observer_step {X} (f : State -> X * State) :
  (forall s, client (snd (f s)) = client s /\
             closedChans (world (snd (f s))) = closedChans (world s) /\
             nextChan (world (snd (f s))) = nextChan (world s)) ->
  observer (step f).
Proof.
  intros H. unfold step. simpl. split; [ | exact (fun _ => I)].
  intros s x s' E. injection E as E. specialize (H s). rewrite E in H. exact H.
Qed.

(** The loop body of the goroutine only reads the [Client]. *)
Lemma reader_iteration_observer os : observer (reader_iteration os).
Proof.
  unfold reader_iteration, method, load, chan_ready, call_SetReadTimeout,
    call_Read, EventsEmit, effect.
  repeat first
    [ apply observer_bind
    | apply observer_step; intros s; simpl;
      try destruct (port_Read os (trace (world s)) _); simpl; auto
    | intros ?
    | match goal with
      | |- observer (if ?b then _ else _) => destruct b
      | |- observer (match ?o with Some _ => _ | None => _ end) => destruct o
      | |- observer (deref ?o) => destruct o; simpl
      end
    | exact I ].
Qed.

Lemma replace_nth_Forall {X} {P : X -> Prop} i x {l : list X} :
  Forall P l -> P x -> Forall P (replace_nth i x l).
Proof.
  intros Hl Hx. revert i. induction Hl; intros [ | i]; simpl; auto.
Qed.

Lemma nth_error_Forall {X} {P : X -> Prop} {i x} {l : list X} :
  Forall P l -> nth_error l i = Some x -> P x.
Proof.
  intros Hl E. rewrite Forall_forall in Hl. apply Hl. eapply nth_error_In, E.
Qed.

(** A step of a reader goroutine changes neither the [Client] nor the
    channels, nor the call in the foreground: what a method returns and the
    fields it leaves do not depend on the goroutines, but for what the
    operating system answers after their reads. *)
Lemma reader_step_observes os {A} (i : nat) (y y' : Sys A) :
  Forall observer (sys_readers y) ->
  sched os (Reader i) y = Some y' ->
  client (sys_state y') = client (sys_state y) /\
  closedChans (world (sys_state y')) = closedChans (world (sys_state y)) /\
  nextChan (world (sys_state y')) = nextChan (world (sys_state y)) /\
  sys_fg y' = sys_fg y /\
  Forall observer (sys_readers y').
Proof.
  intros Hobs E. unfold sched in E.
  destruct (nth_error (sys_readers y) i) as [p | ] eqn:En; [ | discriminate].
  pose proof (nth_error_Forall Hobs En) as Hp.
  destruct p as [c | | X f k | k]; try discriminate.
  - destruct c; [ | discriminate]. injection E as <-. simpl.
    repeat split; auto.
    apply replace_nth_Forall; [exact Hobs | apply reader_iteration_observer].
  - destruct Hp as [Hf Hk].
    destruct (f (sys_state y)) as [[x s'] | ] eqn:Ef; [ | discriminate].
    injection E as <-. simpl.
    destruct (Hf _ _ _ Ef) as [Hc [Hcl Hn]].
    repeat split; auto.
    apply replace_nth_Forall; [exact Hobs | apply Hk].
Qed.

(** Running a call alone is one of the schedules: the one in which no
    goroutine moves until the call has returned. *)
Lemma run_is_a_schedule os {A} (p : prog A) (s s' : State) (a : A)
    (rs : list (prog LoopCtl)) :
  run p s = (Returned a, s') ->
  exists n k,
    exec os (repeat Fg n) (mkSys s p rs)
    = Some (mkSys s' (Ret a) (rs ++ repeat (reader_iteration os) k)).
Proof.
  revert s rs. induction p as [b | | X f k IH | k IH]; intros s rs E; simpl in E.
  - injection E as <- <-. exists 0, 0. simpl. rewrite app_nil_r. reflexivity.
  - discriminate.
  - destruct (f s) as [[x s1] | ] eqn:Ef; [ | discriminate].
    destruct (IH x s1 rs E) as [n [j Hn]].
    exists (S n), j. simpl. rewrite Ef. exact Hn.
  - destruct (IH _ (rs ++ [reader_iteration os]) E) as [n [j Hn]].
    exists (S n), (S j). simpl. rewrite Hn. rewrite <- app_assoc. reflexivity.
Qed.

(* ------------------------------------------------------------------ *)
(** ** Connecting *)

(** C1, as the specification states it, fails: [ConnectTCP] on a manager that
    holds a serial session returns success, closes nothing, and leaves both the
    serial and the TCP field filled. *)
Lemma Connect_is_not_exclusive :
  run (ConnectTCP deviceOS localhost) serial_state
  = (Returned None,
     after deviceOS [CallConnectSerial com3; CallConnectTCP localhost] initState) /\
  serialPort (client (snd (run (ConnectTCP deviceOS localhost) serial_state)))
  = Some (mkHandle 0 "COM3") /\
  tcpConn (client (snd (run (ConnectTCP deviceOS localhost) serial_state)))
  = Some (mkHandle 1 "127.0.0.1:9000") /\
  events_of (ConnectTCP deviceOS localhost) serial_state
  = [EvDial TCP "127.0.0.1:9000" (inr (mkHandle 1 "127.0.0.1:9000"))] /\
  ~ exclusive_after_connect.
Proof.
  repeat split; try reflexivity.
  intros H.
  specialize (H deviceOS serial_state (CallConnectTCP localhost) serial_state_wf
                (or_introl (ex_intro _ localhost eq_refl))).
  vm_compute in H. lia.
Qed.

(** C1, amended: the manager holds at most one session of each kind.  Every
    [Connect] first closes the session stored in the field of its own kind, if
    there is one ([ConnectSerial] retires the read loop before that), and only
    then tries to open the new one: all it does after that closes neither a
    handle nor a channel.  The fields of the two other kinds are left as they
    were ([ConnectTCP] and [ConnectUDP] leave the read loop as it was, too). *)
Theorem Connect_replaces_own_kind (os : OS) (s : State) :
  wf s ->
  (forall config,
     let s' := snd (run (ConnectTCP os config) s) in
     udpConn (client s') = udpConn (client s) /\
     serialPort (client s') = serialPort (client s) /\
     isReading (client s') = isReading (client s) /\
     stopRead (client s') = stopRead (client s) /\
     exists opening,
       events_of (ConnectTCP os config) s
       = close_events os TCP (tcpConn (client s)) (trace (world s)) ++ opening /\
       no_close opening) /\
  (forall config,
     let s' := snd (run (ConnectUDP os config) s) in
     tcpConn (client s') = tcpConn (client s) /\
     serialPort (client s') = serialPort (client s) /\
     isReading (client s') = isReading (client s) /\
     stopRead (client s') = stopRead (client s) /\
     exists opening,
       events_of (ConnectUDP os config) s
       = close_events os UDP (udpConn (client s)) (trace (world s)) ++ opening /\
       no_close opening) /\
  (forall config,
     let s' := snd (run (ConnectSerial os config) s) in
     tcpConn (client s') = tcpConn (client s) /\
     udpConn (client s') = udpConn (client s) /\
     exists opening,
       events_of (ConnectSerial os config) s
       = match serialPort (client s) with
         | Some h =>
             stop_events (client s) ++
             close_events os Serial (Some h)
               (trace (world s) ++ stop_events (client s))
         | None => []
         end ++ opening /\
       no_close opening).
Proof.
  intros H. break_wf. open_state s. subst m.
  assert (N : forall evs, Forall (fun e => is_close e = false /\
                                           forall c0, e <> EvChanClose c0) evs ->
                          no_close evs).
  { intros evs F e He. rewrite Forall_forall in F. apply F, He. }
  split; [ | split]; intros config.
  - destruct tc; unfold events_of; runit; (repeat split; try reflexivity);
      eexists; rewrite <- ?app_assoc, ?skipn_length_app; simpl;
      (split; [reflexivity
              | apply N;
                repeat (apply Forall_cons;
                        [split; [reflexivity | intros; discriminate] | ]);
                apply Forall_nil]).
  - destruct uc; unfold events_of; runit; (repeat split; try reflexivity);
      eexists; rewrite <- ?app_assoc, ?skipn_length_app; simpl;
      (split; [reflexivity
              | apply N;
                repeat (apply Forall_cons;
                        [split; [reflexivity | intros; discriminate] | ]);
                apply Forall_nil]).
  - unfold events_of, stop_events, close_events.
    destruct sp as [h|]; destruct rd; simpl;
      [destruct (Hrd eq_refl) as [c0 [-> Hc]]; simpl; rewrite Hc | | | ];
      simpl; rewrite ?app_nil_r;
      runit; (repeat split; try reflexivity);
      eexists; rewrite <- ?app_assoc, ?skipn_length_app; simpl;
      (split; [reflexivity
              | apply N;
                repeat (apply Forall_cons;
                        [split; [reflexivity | intros; discriminate] | ]);
                apply Forall_nil]).
Qed.

Lemma Connect_replaces_own_kind_witness :
  wf serial_state /\
  exists opening,
    events_of (ConnectSerial deviceOS com3) serial_state
    = [EvChanClose 0; EvClose Serial (mkHandle 0 "COM3") None] ++ opening /\
    no_close opening.
Proof.
  split; [exact serial_state_wf | ].
  exact (proj2 (proj2 (proj2 (proj2
           (Connect_replaces_own_kind deviceOS serial_state serial_state_wf)) com3))).
Defined.

(** When no serial session is stored and the device cannot be opened,
    [ConnectSerial] returns the open error and changes nothing but the trace,
    to which it adds the failed attempt alone. *)
Lemma ConnectSerial_failure_without_session (os : OS) (s : State)
    (config : SerialConfig) (cause : OSError) :
  mu (client s) = false ->
  serialPort (client s) = None ->
  let mode := serial.mkMode (sc_BaudRate config) (sc_DataBits config)
                            (getParity (sc_Parity config))
                            (getStopBits (sc_StopBits config)) in
  serial_Open os (trace (world s)) (sc_PortName config) mode = Some cause ->
  run (ConnectSerial os config) s
  = (Returned (Some (ErrSerialOpen cause)),
     mkState (client s)
             (log (EvSerialOpen (sc_PortName config) mode (inl cause)) (world s))).
Proof.
  intros Hmu Hsp mode E. open_state s. subst. unfold mode in E.
  simpl. rewrite E. reflexivity.
Qed.

(** C3: the code at the failing input.  With the session on [COM3] stored,
    [ConnectSerial] on a device that cannot be opened returns the open error
    and emits nothing, but the field [serialPort] still holds the handle it
    has just closed; the next [WriteSerial] does not answer not-connected: it
    writes to that closed handle and reports the library's error as a failed
    write. *)
Theorem ConnectSerial_failure_keeps_closed_port :
  run (ConnectSerial deviceOS com9) serial_state
  = (Returned (Some (ErrSerialOpen "no such device")), failed_reconnect_state) /\
  emitted (events_of (ConnectSerial deviceOS com9) serial_state) = [] /\
  serialPort (client failed_reconnect_state) = Some (mkHandle 0 "COM3") /\
  In (EvClose Serial (mkHandle 0 "COM3") None) (trace (world failed_reconnect_state)) /\
  fst (run (WriteSerial deviceOS [x01; x02]) failed_reconnect_state)
  = Returned (Some (ErrWriteFailed "port closed")) /\
  events_of (WriteSerial deviceOS [x01; x02]) failed_reconnect_state
  = [EvWrite Serial (mkHandle 0 "COM3") [x01; x02] (Some "port closed")].
Proof.
  repeat split; try reflexivity.
  vm_compute. tauto.
Qed.

(* ------------------------------------------------------------------ *)
(** ** Sending *)

(** C2, as the specification states it, fails whatever errors of [app.go] are
    taken to be the specification's [WrongTransport] and [NotConnected]:
    [SendData("tcp", _)] returns the same error with a serial session stored
    as with no session at all. *)
Lemma SendData_has_no_WrongTransport :
  ~ exists os classify, SendData_as_specified os classify.
Proof.
  intros [os [classify H]].
  destruct (H serial_state "tcp" [x01] serial_state_wf (or_introl eq_refl) eq_refl)
    as [e1 [R1 C1]].
  destruct (H initState "tcp" [x01] initState_wf (or_introl eq_refl) eq_refl)
    as [e0 [R0 C0]].
  assert (S1 : run (SendData os "tcp" [x01]) serial_state
               = (Returned (Some ErrTCPNotConnected), serial_state))
    by reflexivity.
  assert (S0 : run (SendData os "tcp" [x01]) initState
               = (Returned (Some ErrTCPNotConnected), initState))
    by reflexivity.
  rewrite S1 in R1. rewrite S0 in R0.
  injection R1 as <-. injection R0 as <-.
  vm_compute in C1, C0. rewrite C1 in C0. discriminate.
Qed.

(** C2, amended: [SendData] looks at the session field of the requested kind
    only.  For "tcp", "udp" and "serial": when that field is empty it returns
    that kind's not-connected error and does nothing, whether or not a session
    of another kind is stored; when it holds a session the bytes are written
    to it, once, and the library's error, if any, is returned as it is.  For
    any other kind string it returns the unknown-kind error and does
    nothing. *)
Theorem SendData_spec (os : OS) (s : State) (connType : string) (data : list byte) :
  mu (client s) = false ->
  (connType = "tcp" ->
   match tcpConn (client s) with
   | None =>
       run (SendData os connType data) s = (Returned (Some ErrTCPNotConnected), s)
   | Some h =>
       let r := handle_Write os (trace (world s)) TCP h data in
       run (SendData os connType data) s =
       (Returned (option_map ErrTransport r),
        mkState (client s) (log (EvWrite TCP h data r) (world s)))
   end) /\
  (connType = "udp" ->
   match udpConn (client s) with
   | None =>
       run (SendData os connType data) s = (Returned (Some ErrUDPNotConnected), s)
   | Some h =>
       let r := handle_Write os (trace (world s)) UDP h data in
       run (SendData os connType data) s =
       (Returned (option_map ErrTransport r),
        mkState (client s) (log (EvWrite UDP h data r) (world s)))
   end) /\
  (connType = "serial" ->
   match serialPort (client s) with
   | None =>
       run (SendData os connType data) s
       = (Returned (Some ErrSerialNotConnected), s)
   | Some h =>
       let r := handle_Write os (trace (world s)) Serial h data in
       run (SendData os connType data) s =
       (Returned (option_map ErrTransport r),
        mkState (client s) (log (EvWrite Serial h data r) (world s)))
   end) /\
  (connType <> "tcp" -> connType <> "udp" -> connType <> "serial" ->
   run (SendData os connType data) s
   = (Returned (Some (ErrUnknownConnType connType)), s)).
Proof.
  intros Hmu. open_state s. subst m. repeat split.
  - intros ->. destruct tc; simpl; unfold log; simpl; [ask_os | ]; reflexivity.
  - intros ->. destruct uc; simpl; unfold log; simpl; [ask_os | ]; reflexivity.
  - intros ->. destruct sp; simpl; unfold log; simpl; [ask_os | ]; reflexivity.
  - intros H1 H2 H3. apply String.eqb_neq in H1, H2, H3.
    unfold SendData. rewrite H1, H2, H3. reflexivity.
Qed.

Lemma SendData_spec_witness :
  run (SendData deviceOS "tcp" [x01; x02]) serial_state
  = (Returned (Some ErrTCPNotConnected), serial_state) /\
  fst (run (SendData deviceOS "serial" [x01; x02]) serial_state) = Returned None /\
  run (SendData deviceOS "usb" [x01; x02]) serial_state
  = (Returned (Some (ErrUnknownConnType "usb")), serial_state).
Proof.
  split; [ | split].
  - exact (proj1 (SendData_spec deviceOS serial_state "tcp" [x01; x02] eq_refl) eq_refl).
  - rewrite (proj1 (proj2 (proj2
               (SendData_spec deviceOS serial_state "serial" [x01; x02] eq_refl)))
               eq_refl).
    reflexivity.
  - apply (proj2 (proj2 (proj2
             (SendData_spec deviceOS serial_state "usb" [x01; x02] eq_refl))));
      discriminate.
Defined.

(* ------------------------------------------------------------------ *)
(** ** Listing the ports *)

(** What [GetSerialPorts] answers when the enumeration succeeds: every port
    gets the same flag, whether a serial session is stored. *)
Lemma GetSerialPorts_flags (os : OS) (s : State) (ports : list string) :
  serial_GetPortsList os (trace (world s)) = (ports, None) ->
  fst (run (GetSerialPorts os) s)
  = Returned (map (fun port => mkSerialPortInfo port port (has_session (client s)))
                  ports, None).
Proof.
  intros E. unfold GetSerialPorts. rewrite run_bind.
  open_state s. simpl. rewrite E. simpl.
  rewrite run_bind, run_port_infos. reflexivity.
Qed.

(** C4: the code at the failing input.  With the session on [COM3] stored and
    the ports [COM3] and [COM4] listed, [GetSerialPorts] marks both open,
    [COM4] too, on which no session is open. *)
Theorem GetSerialPorts_marks_every_port :
  run (GetSerialPorts deviceOS) serial_state
  = (Returned ([mkSerialPortInfo "COM3" "COM3" true;
                mkSerialPortInfo "COM4" "COM4" true], None),
     mkState (client serial_state)
             (log (EvGetPortsList ["COM3"; "COM4"] None) (world serial_state))) /\
  serialPort (client serial_state) = Some (mkHandle 0 "COM3").
Proof. split; reflexivity. Qed.

(* ------------------------------------------------------------------ *)
(** ** The read loop and the notifications *)

(** C5: the code under two schedules.  In the first the goroutine started by
    [ConnectSerial] reads and emits [serial:data] before [ConnectSerial] has
    emitted [serial:connected].  In the second the goroutine has read its
    bytes when [CloseSerial] runs, and emits them as [serial:data] after
    [CloseSerial] has emitted [serial:disconnected].  Both calls return
    success. *)
Theorem serial_data_races_with_notifications :
  (let y := exec deviceOS early_reader
                 (mkSys initState (ConnectSerial deviceOS com3) []) in
   outcome y = Some (Ret None) /\
   notifications y = [("serial:data", PBytes [x41; x42]);
                      ("serial:connected", PString "COM3")]) /\
  (let y := exec deviceOS late_reader (mkSys initState connect_then_close []) in
   outcome y = Some (Ret (None, None)) /\
   notifications y = [("serial:connected", PString "COM3");
                      ("serial:disconnected", NoPayload);
                      ("serial:data", PBytes [x41; x42])]).
Proof. repeat split; reflexivity. Qed.

(** [CloseSerial] retires the read loop before it closes the handle. *)
Lemma CloseSerial_retires_first :
  events_of (CloseSerial deviceOS) serial_state
  = [EvChanClose 0; EvClose Serial (mkHandle 0 "COM3") None;
     EvEmit "serial:disconnected" NoPayload] /\
  isReading (client (snd (run (CloseSerial deviceOS) serial_state))) = false.
Proof. split; reflexivity. Qed.

(** C6: the code at the failing input.  [Close] on a manager with a serial
    session closes the handle without retiring the read loop: afterwards no
    serial session is stored, and yet [isReading] is set and the channel
    [stopRead] is open. *)
Theorem Close_leaves_read_state_live :
  run (Close deviceOS) serial_state = (Returned tt, closed_all_state) /\
  events_of (Close deviceOS) serial_state
  = [EvClose Serial (mkHandle 0 "COM3") None] /\
  serialPort (client closed_all_state) = None /\
  isReading (client closed_all_state) = true /\
  stopRead (client closed_all_state) = Some 0 /\
  chan_closed (world closed_all_state) 0 = false.
Proof. repeat split; reflexivity. Qed.

(* ------------------------------------------------------------------ *)
(** ** Writing *)

(** C7: with the mutex free, [WriteSerial] always returns (it neither waits
    nor panics).  With no serial session it returns the not-connected error
    and does nothing; with a serial session it hands exactly the given bytes
    to that session's [Write], once, and returns [nil] if the write succeeded
    and the write-failed error wrapping the library's error if it did not. *)
Theorem WriteSerial_spec (os : OS) (s : State) (data : list byte) :
  mu (client s) = false ->
  (serialPort (client s) = None ->
   run (WriteSerial os data) s = (Returned (Some ErrSerialNotConnected), s)) /\
  (forall h, serialPort (client s) = Some h ->
   let r := handle_Write os (trace (world s)) Serial h data in
   run (WriteSerial os data) s =
   (Returned (option_map ErrWriteFailed r),
    mkState (client s) (log (EvWrite Serial h data r) (world s)))).
Proof.
  intros Hmu. open_state s. subst m. split.
  - intros ->. reflexivity.
  - intros h ->. simpl. unfold log; simpl.
    destruct (handle_Write os tr Serial h data); reflexivity.
Qed.

Lemma WriteSerial_spec_witness :
  run (WriteSerial deviceOS [x01; x02]) initState
  = (Returned (Some ErrSerialNotConnected), initState) /\
  fst (run (WriteSerial deviceOS [x01; x02]) serial_state) = Returned None.
Proof.
  split.
  - apply (proj1 (WriteSerial_spec deviceOS initState [x01; x02] eq_refl)).
    reflexivity.
  - rewrite (proj2 (WriteSerial_spec deviceOS serial_state [x01; x02] eq_refl)
               (mkHandle 0 "COM3") eq_refl).
    reflexivity.
Defined.

(** C10: [WriteSerial] looks at the serial session only.  With a TCP or a
    UDP session open and no serial session, it returns the not-connected
    error, leaves the state as it was and performs no effect at all, so
    nothing is written to the TCP or UDP session. *)
Theorem WriteSerial_only_serial (os : OS) (s : State) (data : list byte) :
  mu (client s) = false ->
  serialPort (client s) = None ->
  tcpConn (client s) <> None \/ udpConn (client s) <> None ->
  run (WriteSerial os data) s = (Returned (Some ErrSerialNotConnected), s) /\
  events_of (WriteSerial os data) s = [].
Proof.
  intros Hmu Hsp _.
  assert (E : run (WriteSerial os data) s
              = (Returned (Some ErrSerialNotConnected), s)).
  { open_state s. subst. reflexivity. }
  split; [exact E | ].
  unfold events_of. rewrite E. simpl. apply skipn_length_nil.
Qed.

Lemma WriteSerial_only_serial_witness :
  tcpConn (client tcp_state) = Some (mkHandle 0 "127.0.0.1:9000") /\
  run (WriteSerial deviceOS [x01; x02]) tcp_state
  = (Returned (Some ErrSerialNotConnected), tcp_state).
Proof.
  split; [reflexivity | ].
  apply (WriteSerial_only_serial deviceOS tcp_state [x01; x02]).
  - reflexivity.
  - reflexivity.
  - left. discriminate.
Defined.

(* ------------------------------------------------------------------ *)
(** ** Closing *)

(** C8: [CloseSerial] twice in a row, from any well-formed state.  With no
    serial session the first call returns [nil] and changes nothing.  Both
    calls return: neither panics.  If the first call returned [nil], the
    second returns [nil] and changes nothing.  If the second call returns an
    error, it is a close error and the first call returned a close error too.
    The second call never closes a channel. *)
Theorem CloseSerial_idempotent (os : OS) (s s1 s2 : State)
    (r1 r2 : Result (option error)) :
  wf s ->
  run (CloseSerial os) s = (r1, s1) ->
  run (CloseSerial os) s1 = (r2, s2) ->
  (serialPort (client s) = None -> r1 = Returned None /\ s1 = s) /\
  (exists e1, r1 = Returned e1) /\
  (exists e2, r2 = Returned e2) /\
  (r1 = Returned None -> r2 = Returned None /\ s2 = s1) /\
  (forall e, r2 = Returned (Some e) ->
     exists c1 c2, r1 = Returned (Some (ErrCloseFailed c1)) /\ e = ErrCloseFailed c2) /\
  (forall ch, ~ In (EvChanClose ch) (events_of (CloseSerial os) s1)).
Proof.
  intros H E1 E2.
  assert (Ev : forall evs, trace (world s2) = trace (world s1) ++ evs ->
                           events_of (CloseSerial os) s1 = evs).
  { intros evs Ht. apply events_of_eq. rewrite E2. exact Ht. }
  break_wf. open_state s. subst m.
  destruct sp as [h|]; destruct rd; simpl in E1;
    [destruct (Hrd eq_refl) as [c0 [-> Hc]]; simpl in E1; rewrite Hc in E1;
     simpl in E1 | | | ];
    repeat match type of E1 with
           | context [handle_Close ?o ?t ?k ?x] =>
               destruct (handle_Close o t k x) eqn:?; simpl in E1
           end;
    injection E1 as <- <-; simpl in E2;
    repeat match type of E2 with
           | context [handle_Close ?o ?t ?k ?x] =>
               destruct (handle_Close o t k x) eqn:?; simpl in E2
           end;
    injection E2 as <- <-; simpl in Ev;
    (split; [ | split; [ | split; [ | split; [ | split]]]];
     [ intros Hn; try discriminate Hn; split; reflexivity
     | eexists; reflexivity
     | eexists; reflexivity
     | intros Hn; try discriminate Hn; split; reflexivity
     | intros e He; try discriminate He; injection He as <-; eauto
     | intros ch1;
       erewrite Ev
         by (first [symmetry; apply app_nil_r | rewrite <- ?app_assoc; reflexivity]);
       simpl; intuition discriminate ]).
Qed.

Lemma CloseSerial_idempotent_witness :
  wf serial_state /\
  fst (run (CloseSerial deviceOS) serial_state) = Returned None /\
  run (CloseSerial deviceOS) (snd (run (CloseSerial deviceOS) serial_state))
  = (Returned None, snd (run (CloseSerial deviceOS) serial_state)).
Proof.
  split; [exact serial_state_wf | ].
  split; [reflexivity | ].
  destruct (CloseSerial_idempotent deviceOS serial_state
              (snd (run (CloseSerial deviceOS) serial_state))
              (snd (run (CloseSerial deviceOS)
                        (snd (run (CloseSerial deviceOS) serial_state))))
              (fst (run (CloseSerial deviceOS) serial_state))
              (fst (run (CloseSerial deviceOS)
                        (snd (run (CloseSerial deviceOS) serial_state))))
              serial_state_wf eq_refl eq_refl)
    as [_ [_ [_ [Hsecond _]]]].
  destruct (Hsecond eq_refl) as [Hr Hs].
  rewrite (surjective_pairing (run (CloseSerial deviceOS)
             (snd (run (CloseSerial deviceOS) serial_state)))).
  rewrite Hr, Hs. reflexivity.
Defined.

(* ------------------------------------------------------------------ *)
(** ** The enum mappings *)

(** C9: [getStopBits] and [getParity] are total functions into the constants
    of the serial library (their result type has no error): the recognised
    strings map to their constants, and every other string maps to the
    default, one stop bit and no parity. *)
Theorem enum_mappings_total_with_default (stopBits parity : string) :
  (stopBits <> "1" -> stopBits <> "1.5" -> stopBits <> "2" ->
   getStopBits stopBits = serial.OneStopBit) /\
  (parity <> "N" -> parity <> "O" -> parity <> "E" -> parity <> "M" ->
   parity <> "S" -> getParity parity = serial.NoParity) /\
  (getStopBits "1" = serial.OneStopBit /\
   getStopBits "1.5" = serial.OnePointFiveStopBits /\
   getStopBits "2" = serial.TwoStopBits) /\
  (getParity "N" = serial.NoParity /\ getParity "O" = serial.OddParity /\
   getParity "E" = serial.EvenParity /\ getParity "M" = serial.MarkParity /\
   getParity "S" = serial.SpaceParity).
Proof.
  repeat split; try reflexivity.
  - intros H1 H2 H3. unfold getStopBits, Stop1, Stop1Half, Stop2.
    apply String.eqb_neq in H1, H2, H3. rewrite H1, H2, H3. reflexivity.
  - intros H1 H2 H3 H4 H5.
    unfold getParity, ParityNone, ParityOdd, ParityEven, ParityMark, ParitySpace.
    apply String.eqb_neq in H1, H2, H3, H4, H5.
    rewrite H1, H2, H3, H4, H5. reflexivity.
Qed.

Lemma enum_mappings_witness :
  getStopBits "3" = serial.OneStopBit /\ getParity "X" = serial.NoParity.
Proof.
  destruct (enum_mappings_total_with_default "3" "X") as [Hs [Hp _]].
  split; [apply Hs | apply Hp]; discriminate.
Defined.

(* ------------------------------------------------------------------ *)
(** ** More on the methods: what each one leaves behind *)

Lemma emitted_app (l1 l2 : list Event) :
  emitted (l1 ++ l2) = emitted l1 ++ emitted l2.
Proof. unfold emitted. apply flat_map_app. Qed.

(** X1: whatever calls were made on a new [Client], one after another, the
    next call returns: it does not panic (no channel is closed twice, no
    method is called through a nil field) and does not wait for the mutex,
    which is free again when it has returned. *)
Theorem every_call_returns (os : OS) (calls : list Call) (c : Call) :
  exists s',
    run (invoke os c) (after os calls initState) = (Returned tt, s') /\
    mu (client s') = false.
Proof.
  pose proof (methods_keep_wf os calls initState initState_wf) as W.
  destruct (invoke_ends_well os c _ W) as [[a Ha] [Hmu _]].
  destruct (run (invoke os c) (after os calls initState)) as [r s'] eqn:E.
  simpl in *. subst r. destruct a. exists s'. split; [reflexivity | exact Hmu].
Qed.

(** X2: when [ConnectSerial] returns [nil], the field [serialPort] holds the
    handle just opened on the configured device, the read loop is live
    ([isReading] set, [stopRead] a channel just made and open), the TCP and
    UDP fields are as they were and the mutex is free.  After retiring the
    session stored before, if any, it has done three things in this order:
    opened the device with the mode built from the configuration, started one
    goroutine, and emitted [serial:connected] once, with the device name. *)
Theorem ConnectSerial_success (os : OS) (s s' : State) (config : SerialConfig) :
  wf s ->
  run (ConnectSerial os config) s = (Returned None, s') ->
  let h := mkHandle (nextHandle (world s)) (sc_PortName config) in
  let ch := nextChan (world s) in
  serialPort (client s') = Some h /\
  isReading (client s') = true /\
  stopRead (client s') = Some ch /\
  chan_closed (world s') ch = false /\
  tcpConn (client s') = tcpConn (client s) /\
  udpConn (client s') = udpConn (client s) /\
  mu (client s') = false /\
  events_of (ConnectSerial os config) s
  = retire_events os s ++
    [EvSerialOpen (sc_PortName config) (mode_of config) (inr h);
     EvGo;
     EvEmit "serial:connected" (PString (sc_PortName config))].
Proof.
  intros H E.
  assert (Ev : forall evs, trace (world s') = trace (world s) ++ evs ->
                           events_of (ConnectSerial os config) s = evs).
  { intros evs Ht. apply events_of_eq. rewrite E. exact Ht. }
  unfold retire_events, stop_events, close_events, mode_of.
  break_wf. open_state s. subst m.
  destruct sp as [h0|]; destruct rd; simpl in E;
    [destruct (Hrd eq_refl) as [c0 [-> Hc]]; simpl in E; rewrite Hc in E;
     simpl in E | | | ];
    simpl; rewrite ?app_nil_r;
    repeat match type of E with
           | context [handle_Close ?o ?t ?k ?x] =>
               destruct (handle_Close o t k x) eqn:?; simpl in E
           | context [serial_Open ?o ?t ?a ?m] =>
               destruct (serial_Open o t a m) eqn:?; simpl in E
           end;
    try discriminate E;
    injection E as <-; simpl in Ev |- *;
    (repeat split; try reflexivity;
     [ unfold chan_closed in *; simpl in *;
       try (apply orb_false_iff; split; [apply Nat.eqb_neq | ]);
       try (apply existsb_eqb_false; assumption);
       try (specialize (Hch _ eq_refl); lia)
     | apply Ev; rewrite <- ?app_assoc; reflexivity ]).
Qed.

Lemma ConnectSerial_success_witness :
  wf initState /\
  run (ConnectSerial deviceOS com3) initState = (Returned None, serial_state) /\
  serialPort (client serial_state) = Some (mkHandle 0 "COM3") /\
  isReading (client serial_state) = true.
Proof.
  split; [exact initState_wf | ]. split; [reflexivity | ].
  destruct (ConnectSerial_success deviceOS initState serial_state com3
              initState_wf eq_refl) as [H1 [H2 _]].
  split; [exact H1 | exact H2].
Defined.

(** X3: [ConnectSerial] and then [CloseSerial], both returning [nil], leave
    no serial session and no live read loop: [serialPort] is nil, [isReading]
    is unset, the channel made for the loop is closed, the TCP and UDP fields
    are as they were, and the sink has received exactly [serial:connected]
    with the device name and then [serial:disconnected] from the two calls. *)
Theorem ConnectSerial_then_CloseSerial (os : OS) (s s1 s2 : State)
    (config : SerialConfig) :
  wf s ->
  run (ConnectSerial os config) s = (Returned None, s1) ->
  run (CloseSerial os) s1 = (Returned None, s2) ->
  serialPort (client s2) = None /\
  isReading (client s2) = false /\
  chan_closed (world s2) (nextChan (world s)) = true /\
  tcpConn (client s2) = tcpConn (client s) /\
  udpConn (client s2) = udpConn (client s) /\
  mu (client s2) = false /\
  emitted (trace (world s2))
  = emitted (trace (world s)) ++
    [("serial:connected", PString (sc_PortName config));
     ("serial:disconnected", NoPayload)].
Proof.
  intros H E1 E2.
  break_wf. open_state s. subst m.
  destruct sp as [h0|]; destruct rd; simpl in E1;
    [destruct (Hrd eq_refl) as [c0 [-> Hc]]; simpl in E1; rewrite Hc in E1;
     simpl in E1 | | | ];
    repeat match type of E1 with
           | context [handle_Close ?o ?t ?k ?x] =>
               destruct (handle_Close o t k x) eqn:?; simpl in E1
           | context [serial_Open ?o ?t ?a ?m] =>
               destruct (serial_Open o t a m) eqn:?; simpl in E1
           end;
    try discriminate E1;
    injection E1 as <-; simpl in E2;
    unfold chan_closed, log, fresh_handle in E2; simpl in E2;
    assert (Hfresh : existsb (Nat.eqb nc) cl = false)
      by (apply existsb_eqb_false; assumption);
    try (assert (Hne : Nat.eqb nc c0 = false)
           by (apply Nat.eqb_neq; specialize (Hch _ eq_refl); lia);
         rewrite Hne in E2);
    rewrite Hfresh in E2; simpl in E2;
    repeat match type of E2 with
           | context [handle_Close ?o ?t ?k ?x] =>
               destruct (handle_Close o t k x) eqn:?; simpl in E2
           end;
    try discriminate E2;
    injection E2 as <-; simpl;
    (repeat split; try reflexivity;
     [ unfold chan_closed; simpl; rewrite Nat.eqb_refl; reflexivity
     | rewrite !emitted_app; simpl; rewrite ?app_nil_r, <- ?app_assoc;
       reflexivity ]).
Qed.

Lemma ConnectSerial_then_CloseSerial_witness :
  wf initState /\
  emitted (trace (world (snd (run (CloseSerial deviceOS) serial_state))))
  = [("serial:connected", PString "COM3"); ("serial:disconnected", NoPayload)].
Proof.
  split; [exact initState_wf | ].
  exact (proj2 (proj2 (proj2 (proj2 (proj2 (proj2
           (ConnectSerial_then_CloseSerial deviceOS initState serial_state
              (snd (run (CloseSerial deviceOS) serial_state)) com3
              initState_wf eq_refl eq_refl))))))).
Defined.

(** X4: [CloseSerial] on a stored serial session always retires the read
    loop first ([isReading] is unset and the channel closed afterwards) and
    then closes the handle, once.  It returns [nil] exactly when that close
    succeeded; then [serialPort] is nil and [serial:disconnected] is emitted,
    last.  When the close fails it returns the close error wrapping the
    library's, the session stays stored and nothing is emitted.  The TCP and
    UDP fields are not touched. *)
Theorem CloseSerial_outcome (os : OS) (s : State) (h : Handle) :
  wf s ->
  serialPort (client s) = Some h ->
  let pre := stop_events (client s) in
  let r := handle_Close os (trace (world s) ++ pre) Serial h in
  let s' := snd (run (CloseSerial os) s) in
  fst (run (CloseSerial os) s) = Returned (option_map ErrCloseFailed r) /\
  isReading (client s') = false /\
  (forall ch, isReading (client s) = true -> stopRead (client s) = Some ch ->
              chan_closed (world s') ch = true) /\
  serialPort (client s') = match r with
                           | None => None
                           | Some _ => Some h
                           end /\
  tcpConn (client s') = tcpConn (client s) /\
  udpConn (client s') = udpConn (client s) /\
  events_of (CloseSerial os) s
  = pre ++ [EvClose Serial h r] ++
    match r with
    | None => [EvEmit "serial:disconnected" NoPayload]
    | Some _ => []
    end.
Proof.
  intros H Hsp. unfold events_of, stop_events.
  break_wf. open_state s. subst m sp.
  destruct rd; simpl;
    [destruct (Hrd eq_refl) as [c0 [-> Hc]]; simpl; rewrite Hc | ];
    simpl; rewrite ?app_nil_r; runit;
    (repeat split; try reflexivity;
     [ try (intros c1 _ [= <-]; unfold chan_closed; simpl;
            rewrite Nat.eqb_refl; reflexivity);
       try (intros; discriminate)
     | rewrite <- ?app_assoc, ?skipn_length_app; reflexivity ]).
Qed.

Lemma CloseSerial_outcome_witness :
  wf serial_state /\
  serialPort (client serial_state) = Some (mkHandle 0 "COM3") /\
  fst (run (CloseSerial deviceOS) serial_state) = Returned None /\
  isReading (client (snd (run (CloseSerial deviceOS) serial_state))) = false.
Proof.
  split; [exact serial_state_wf | ]. split; [reflexivity | ].
  destruct (CloseSerial_outcome deviceOS serial_state (mkHandle 0 "COM3")
              serial_state_wf eq_refl) as [H1 [H2 _]].
  split; [exact H1 | exact H2].
Defined.

(** X5: [ConnectTCP] closes the stored TCP connection, if any, and dials.  If
    the dial fails it returns the dial error wrapping the library's and every
    field of the [Client] is as before the call; if it succeeds it returns
    [nil] and only [tcpConn] has changed: it holds the new connection. *)
Theorem ConnectTCP_outcome (os : OS) (s : State) (config : TCPConfig) :
  mu (client s) = false ->
  let closing := close_events os TCP (tcpConn (client s)) (trace (world s)) in
  let s' := snd (run (ConnectTCP os config) s) in
  match net_Dial os (trace (world s) ++ closing) (tcp_Address config) with
  | Some cause =>
      fst (run (ConnectTCP os config) s) = Returned (Some (ErrTCPDial cause)) /\
      client s' = client s /\
      events_of (ConnectTCP os config) s
      = closing ++ [EvDial TCP (tcp_Address config) (inl cause)]
  | None =>
      let conn := mkHandle (nextHandle (world s)) (tcp_Address config) in
      fst (run (ConnectTCP os config) s) = Returned None /\
      client s' = set_tcpConn (Some conn) (client s) /\
      events_of (ConnectTCP os config) s
      = closing ++ [EvDial TCP (tcp_Address config) (inr conn)]
  end.
Proof.
  intros Hmu. unfold events_of, close_events. open_state s. subst m.
  destruct tc; simpl; rewrite ?app_nil_r; runit;
    (repeat split; try reflexivity);
    rewrite <- ?app_assoc, ?skipn_length_app; reflexivity.
Qed.

Lemma ConnectTCP_outcome_witness :
  mu (client tcp_state) = false /\
  fst (run (ConnectTCP deviceOS localhost) tcp_state) = Returned None /\
  tcpConn (client (snd (run (ConnectTCP deviceOS localhost) tcp_state)))
  = Some (mkHandle 1 "127.0.0.1:9000").
Proof.
  split; [reflexivity | ].
  destruct (ConnectTCP_outcome deviceOS tcp_state localhost eq_refl) as [H1 [H2 _]].
  split; [exact H1 | ]. rewrite H2. reflexivity.
Defined.

(** X6: [ConnectUDP] closes the stored UDP connection, if any, resolves the
    address and dials.  If the resolution fails it returns the resolution
    error and does not dial; if the dial fails it returns the dial error; in
    both cases every field of the [Client] is as before the call.  If both
    succeed it returns [nil] and only [udpConn] has changed: it holds the new
    connection. *)
Theorem ConnectUDP_outcome (os : OS) (s : State) (config : UDPConfig) :
  mu (client s) = false ->
  let closing := close_events os UDP (udpConn (client s)) (trace (world s)) in
  let address := udp_Address config in
  let tr1 := trace (world s) ++ closing in
  let s' := snd (run (ConnectUDP os config) s) in
  match net_ResolveUDPAddr os tr1 address with
  | Some cause =>
      fst (run (ConnectUDP os config) s) = Returned (Some (ErrUDPResolve cause)) /\
      client s' = client s /\
      events_of (ConnectUDP os config) s
      = closing ++ [EvResolve address (Some cause)]
  | None =>
      match net_DialUDP os (tr1 ++ [EvResolve address None]) address with
      | Some cause =>
          fst (run (ConnectUDP os config) s) = Returned (Some (ErrUDPDial cause)) /\
          client s' = client s /\
          events_of (ConnectUDP os config) s
          = closing ++ [EvResolve address None; EvDial UDP address (inl cause)]
      | None =>
          let conn := mkHandle (nextHandle (world s)) address in
          fst (run (ConnectUDP os config) s) = Returned None /\
          client s' = set_udpConn (Some conn) (client s) /\
          events_of (ConnectUDP os config) s
          = closing ++ [EvResolve address None; EvDial UDP address (inr conn)]
      end
  end.
Proof.
  intros Hmu. unfold events_of, close_events. open_state s. subst m.
  destruct uc; simpl; rewrite ?app_nil_r; runit;
    (repeat split; try reflexivity);
    rewrite <- ?app_assoc, ?skipn_length_app; reflexivity.
Qed.

Lemma ConnectUDP_outcome_witness :
  mu (client serial_state) = false /\
  fst (run (ConnectUDP deviceOS (mkUDPConfig "10.0.0.7:5000")) serial_state)
  = Returned None /\
  udpConn (client (snd (run (ConnectUDP deviceOS (mkUDPConfig "10.0.0.7:5000"))
                            serial_state)))
  = Some (mkHandle 1 "10.0.0.7:5000").
Proof.
  split; [reflexivity | ].
  destruct (ConnectUDP_outcome deviceOS serial_state (mkUDPConfig "10.0.0.7:5000")
              eq_refl) as [H1 [H2 _]].
  split; [exact H1 | ]. rewrite H2. reflexivity.
Defined.

(** X7: [Close] always returns.  It closes every stored session once, in the
    order TCP, UDP, serial, whatever the closes answer, and does nothing
    else; afterwards the three session fields are nil and the other fields
    are as they were.  A second [Close] does nothing at all. *)
Theorem Close_closes_everything (os : OS) (s : State) :
  mu (client s) = false ->
  let s' := snd (run (Close os) s) in
  fst (run (Close os) s) = Returned tt /\
  client s'
  = set_serialPort None (set_udpConn None (set_tcpConn None (client s))) /\
  events_of (Close os) s = close_all_events os s /\
  run (Close os) s' = (Returned tt, s').
Proof.
  intros Hmu. unfold events_of, close_all_events, close_events.
  open_state s. subst m.
  destruct tc, uc, sp; simpl; rewrite ?app_nil_r; runit;
    (repeat split; try reflexivity);
    first [ apply skipn_length_nil
          | rewrite <- ?app_assoc, ?skipn_length_app; reflexivity ].
Qed.

Lemma Close_closes_everything_witness :
  mu (client serial_state) = false /\
  serialPort (client (snd (run (Close deviceOS) serial_state))) = None /\
  events_of (Close deviceOS) serial_state
  = [EvClose Serial (mkHandle 0 "COM3") None].
Proof.
  split; [reflexivity | ].
  destruct (Close_closes_everything deviceOS serial_state eq_refl)
    as [_ [H2 [H3 _]]].
  split; [rewrite H2; reflexivity | rewrite H3; reflexivity].
Defined.

(** X8: [GetSerialPorts] takes no lock and writes no field: in every state,
    also with the mutex held, it returns and leaves the [Client] as it was.
    If the enumeration fails it returns no descriptor and the enumeration
    error wrapping the library's; otherwise it returns [nil] as error and one
    descriptor for each listed port, in the order of the list, with the port
    name as name and as description. *)
Theorem GetSerialPorts_outcome (os : OS) (s : State) :
  let ports := fst (serial_GetPortsList os (trace (world s))) in
  let err := snd (serial_GetPortsList os (trace (world s))) in
  exists infos,
    run (GetSerialPorts os) s
    = (Returned (infos, option_map ErrGetPorts err),
       mkState (client s) (log (EvGetPortsList ports err) (world s))) /\
    match err with
    | Some _ => infos = []
    | None => map Name infos = ports /\ map Description infos = ports
    end.
Proof.
  unfold GetSerialPorts. rewrite run_bind.
  open_state s. simpl.
  destruct (serial_GetPortsList os tr) as [ports [e | ]]; simpl.
  - eexists. split; reflexivity.
  - rewrite run_bind, run_port_infos. simpl. eexists. split; [reflexivity | ].
    rewrite !map_map. simpl. unfold getPortDescription. rewrite map_id. auto.
Qed.

(** X9: [SendData] with the kind "serial" and [WriteSerial] do the same to the
    manager and to the port, and succeed or fail together; only the error of
    a failed write differs: [SendData] returns the library's error as it is,
    [WriteSerial] wraps it as a failed write. *)
Theorem SendData_serial_is_WriteSerial (os : OS) (s : State) (data : list byte) :
  mu (client s) = false ->
  snd (run (SendData os "serial" data) s) = snd (run (WriteSerial os data) s) /\
  (fst (run (SendData os "serial" data) s) = Returned None <->
   fst (run (WriteSerial os data) s) = Returned None) /\
  (fst (run (SendData os "serial" data) s) = Returned (Some ErrSerialNotConnected) <->
   fst (run (WriteSerial os data) s) = Returned (Some ErrSerialNotConnected)) /\
  (forall cause,
     fst (run (SendData os "serial" data) s) = Returned (Some (ErrTransport cause)) <->
     fst (run (WriteSerial os data) s) = Returned (Some (ErrWriteFailed cause))).
Proof.
  intros Hmu. open_state s. subst m.
  destruct sp; runit; repeat split; intros; try discriminate; try reflexivity;
    try congruence.
Qed.

Lemma SendData_serial_is_WriteSerial_witness :
  mu (client serial_state) = false /\
  fst (run (SendData deviceOS "serial" [x01; x02]) serial_state) = Returned None.
Proof.
  split; [reflexivity | ].
  apply (proj2 (proj1 (proj2
           (SendData_serial_is_WriteSerial deviceOS serial_state
              [x01; x02] eq_refl)))).
  reflexivity.
Defined.

(* ------------------------------------------------------------------ *)
(** ** More on the read loop *)

(** X10: a turn of the read loop that finds [isReading] unset, or the channel
    [stopRead] closed, or [serialPort] nil ends the goroutine and does nothing
    else: it sets no time-out, reads nothing and emits nothing. *)
Theorem reader_iteration_exits (os : OS) (s : State) :
  isReading (client s) = false \/
  (exists ch, stopRead (client s) = Some ch /\ chan_closed (world s) ch = true) \/
  serialPort (client s) = None ->
  run (reader_iteration os) s = (Returned Exit, s).
Proof.
  intros H. open_state s.
  destruct rd; simpl.
  - destruct H as [H | [[c0 [-> Hc]] | ->]]; [discriminate | | ].
    + rewrite Hc. reflexivity.
    + destruct ch as [c0 | ]; [ | reflexivity].
      destruct (chan_closed _ c0); reflexivity.
  - reflexivity.
Qed.

Lemma reader_iteration_exits_witness :
  chan_closed (world (snd (run (CloseSerial deviceOS) serial_state))) 0 = true /\
  fst (run (reader_iteration deviceOS) (snd (run (CloseSerial deviceOS) serial_state)))
  = Returned Exit.
Proof.
  split; [reflexivity | ].
  rewrite (reader_iteration_exits deviceOS
             (snd (run (CloseSerial deviceOS) serial_state))
             (or_introl eq_refl)).
  reflexivity.
Defined.

(** X11: a turn of the read loop that runs undisturbed while the loop is
    live sets the time-out of 100 ms on the stored port and reads from it
    once, into a buffer of 1024 bytes.  It emits [serial:data] exactly when
    the read returned no error and at least one byte, and then with the bytes
    read and nothing more.  It always goes on to the next turn (a read error
    does not end the loop) and writes no field of the [Client]. *)
Theorem reader_iteration_forwards (os : OS) (s : State) (h : Handle) :
  isReading (client s) = true ->
  (forall ch, stopRead (client s) = Some ch -> chan_closed (world s) ch = false) ->
  serialPort (client s) = Some h ->
  let tr1 := trace (world s) ++ [EvSetReadTimeout h 100] in
  let chunk := firstn 1024 (fst (port_Read os tr1 h)) in
  let err := snd (port_Read os tr1 h) in
  let s' := snd (run (reader_iteration os) s) in
  fst (run (reader_iteration os) s) = Returned Continue /\
  client s' = client s /\
  events_of (reader_iteration os) s
  = [EvSetReadTimeout h 100; EvRead h chunk err] ++
    match err, chunk with
    | None, _ :: _ => [EvEmit "serial:data" (PBytes chunk)]
    | _, _ => []
    end.
Proof.
  intros Hrd Hch Hsp. unfold events_of, reader_iteration.
  remember 1024 as size eqn:Hsize. clear Hsize.
  open_state s. subst rd sp.
  assert (Hc : match ch with
               | Some c0 => chan_closed (mkWorld tr nh nc cl) c0
               | None => false
               end = false).
  { destruct ch as [c0 | ]; [apply Hch | ]; reflexivity. }
  simpl. rewrite Hc. simpl.
  destruct (port_Read os (tr ++ [EvSetReadTimeout h 100]) h) as [data [e | ]]; simpl.
  - repeat split. rewrite <- !app_assoc, skipn_length_app. reflexivity.
  - destruct (firstn size data) as [ | b chunk] eqn:Ef; simpl;
      (repeat split); rewrite <- !app_assoc, skipn_length_app; reflexivity.
Qed.

Lemma reader_iteration_forwards_witness :
  isReading (client serial_state) = true /\
  emitted (events_of (reader_iteration deviceOS) serial_state)
  = [("serial:data", PBytes [x41; x42])].
Proof.
  split; [reflexivity | ].
  destruct (reader_iteration_forwards deviceOS serial_state (mkHandle 0 "COM3")
              eq_refl) as [_ [_ H]].
  - intros ch0 E. injection E as <-. reflexivity.
  - reflexivity.
  - rewrite H. reflexivity.
Defined.

Lemma exec_keeps_observers os {A} (schedule : list Thread) (y y' : Sys A) :
  Forall observer (sys_readers y) ->
  exec os schedule y = Some y' ->
  Forall observer (sys_readers y').
Proof.
  revert y. induction schedule as [ | t rest IH]; intros y Hobs E; simpl in E.
  - injection E as <-. exact Hobs.
  - destruct (sched os t y) as [y1 | ] eqn:Es; [ | discriminate].
    apply (IH y1); [ | exact E].
    destruct t as [ | i].
    + unfold sched in Es. destruct (sys_fg y) as [a | | X f k | k]; try discriminate.
      * destruct (f (sys_state y)) as [[x s1] | ]; [ | discriminate].
        injection Es as <-. exact Hobs.
      * injection Es as <-. simpl. apply Forall_app. split; [exact Hobs | ].
        constructor; [apply reader_iteration_observer | constructor].
    + apply (reader_step_observes os i y y1 Hobs Es).
Qed.

(** X12: whatever calls run in the foreground and however they are
    interleaved with the goroutines they start, no step of a goroutine writes
    a field of the [Client], makes or closes a channel, or changes what is
    left of the call in the foreground. *)
Theorem goroutines_never_write_the_client (os : OS) {A : Type} (p : prog A)
    (s : State) (schedule : list Thread) (i : nat) (y y' : Sys A) :
  exec os schedule (mkSys s p []) = Some y ->
  sched os (Reader i) y = Some y' ->
  client (sys_state y') = client (sys_state y) /\
  closedChans (world (sys_state y')) = closedChans (world (sys_state y)) /\
  nextChan (world (sys_state y')) = nextChan (world (sys_state y)) /\
  sys_fg y' = sys_fg y.
Proof.
  intros E Es.
  assert (Hobs : Forall observer (sys_readers y)).
  { apply (exec_keeps_observers os schedule (mkSys s p []) y); [constructor | exact E]. }
  destruct (reader_step_observes os i y y' Hobs Es) as [H1 [H2 [H3 [H4 _]]]].
  auto.
Qed.

Lemma goroutines_never_write_the_client_witness :
  let started := mkState NewClient (log EvGo emptyWorld) in
  let y := mkSys started (Ret tt) [reader_iteration deviceOS] in
  let y' := mkSys started (Ret tt) [Ret Exit] in
  exec deviceOS [Fg] (mkSys initState (Go (Ret tt)) []) = Some y /\
  sched deviceOS (Reader 0) y = Some y' /\
  client (sys_state y') = client (sys_state y).
Proof.
  intros started y y'.
  split; [reflexivity | ]. split; [reflexivity | ].
  exact (proj1 (goroutines_never_write_the_client deviceOS (Go (Ret tt))
                  initState [Fg] 0 y y' eq_refl eq_refl)).
Defined.

Lemma exec_cons os {A} (t : Thread) (rest : list Thread) (y y1 : Sys A) :
  sched os t y = Some y1 -> exec os (t :: rest) y = exec os rest y1.
Proof. intros E. simpl. rewrite E. reflexivity. Qed.

(** one step of a schedule, with what the operating system answers taken
    from the hypotheses *)
Ltac exec_step :=
  erewrite exec_cons
    by (cbn;
        repeat match goal with
               | H : forall tr, serial_Open _ tr _ _ = None |- _ => rewrite H
               | H : forall tr h, handle_Close _ tr _ h = None |- _ => rewrite H
               end;
        cbn; reflexivity).

(** X13: [CloseSerial] does not wait for the goroutine.  On any system where
    the device opens and closes without error there is a schedule in which
    the goroutine has passed its test [c.serialPort == nil] when [CloseSerial]
    sets the field to nil, and then calls [SetReadTimeout] through the nil
    field: the goroutine panics, after both calls have returned [nil]. *)
Theorem reader_panics_when_closed_under_it (os : OS) (config : SerialConfig) :
  (forall tr, serial_Open os tr (sc_PortName config) (mode_of config) = None) ->
  (forall tr h, handle_Close os tr Serial h = None) ->
  exists y,
    exec os reader_after_nil_check (mkSys initState (connect_close os config) [])
    = Some y /\
    sys_fg y = Ret (None, None) /\
    sys_readers y = [Panic] /\
    serialPort (client (sys_state y)) = None.
Proof.
  intros Hopen Hclose. unfold mode_of in Hopen.
  eexists. split; [ | split; [ | split]].
  - unfold reader_after_nil_check. cbn [repeat app].
    unfold connect_close, ConnectSerial, locked, Lock.
    repeat exec_step. cbn [exec]. reflexivity.
  - reflexivity.
  - reflexivity.
  - reflexivity.
Qed.

Lemma reader_panics_when_closed_under_it_witness :
  exists y,
    exec deviceOS reader_after_nil_check
         (mkSys initState (connect_close deviceOS com3) []) = Some y /\
    sys_fg y = Ret (None, None) /\
    sys_readers y = [Panic] /\
    serialPort (client (sys_state y)) = None.
Proof.
  apply (reader_panics_when_closed_under_it deviceOS com3).
  - intros tr. reflexivity.
  - intros tr h. reflexivity.
Defined.

(** X14: a [ConnectSerial] that replaces a session does not wait for the
    goroutine of the old one either, and the goroutine reads the port and the
    channel from the fields at every use.  On any system where both devices
    open there is a schedule in which the first goroutine is past the head of
    its loop during the replacement and then goes on with the new port: after
    both calls have returned [nil], two goroutines are running on the one
    session. *)
Theorem reader_survives_replacement (os : OS) (config1 config2 : SerialConfig) :
  (forall tr, serial_Open os tr (sc_PortName config1) (mode_of config1) = None) ->
  (forall tr, serial_Open os tr (sc_PortName config2) (mode_of config2) = None) ->
  let port2 := mkHandle 1 (sc_PortName config2) in
  exists y first_reader,
    exec os reader_across_replacement
         (mkSys initState (connect_twice os config1 config2) [])
    = Some y /\
    sys_fg y = Ret (None, None) /\
    sys_readers y = [first_reader; reader_iteration os] /\
    serialPort (client (sys_state y)) = Some port2 /\
    last (trace (world (sys_state y))) EvGo = EvSetReadTimeout port2 100.
Proof.
  intros Hopen1 Hopen2 port2. unfold mode_of in Hopen1, Hopen2.
  eexists. eexists. split; [ | split; [ | split; [ | split]]].
  - unfold reader_across_replacement. cbn [repeat app].
    unfold connect_twice, ConnectSerial, locked, Lock.
    repeat exec_step. cbn [exec]. reflexivity.
  - reflexivity.
  - reflexivity.
  - reflexivity.
  - reflexivity.
Qed.

Lemma reader_survives_replacement_witness :
  exists y first_reader,
    exec deviceOS reader_across_replacement
         (mkSys initState (connect_twice deviceOS com3 com3) [])
    = Some y /\
    sys_fg y = Ret (None, None) /\
    sys_readers y = [first_reader; reader_iteration deviceOS] /\
    serialPort (client (sys_state y)) = Some (mkHandle 1 "COM3") /\
    last (trace (world (sys_state y))) EvGo
    = EvSetReadTimeout (mkHandle 1 "COM3") 100.
Proof.
  apply (reader_survives_replacement deviceOS com3 com3).
  - intros tr. reflexivity.
  - intros tr. reflexivity.
Defined.

(* ------------------------------------------------------------------ *)
(** ** The front end: hexadecimal input and the display of received data *)

Ltac split_tests :=
  repeat (match goal with
          | |- context [N.leb ?a ?b] => destruct (N.leb_spec a b)
          | |- context [N.eqb ?a ?b] => destruct (N.eqb_spec a b)
          | H : context [N.leb ?a ?b] |- _ => destruct (N.leb_spec a b)
          | H : context [N.eqb ?a ?b] |- _ => destruct (N.eqb_spec a b)
          end; simpl in *; try lia; try discriminate).

Lemma hex_digit_range (c : N) (v : Z) :
  hex_digit c = Some v ->
  (48 <= c <= 102)%N /\ c <> 88%N /\ (0 <= v < 16)%Z.
Proof.
  unfold hex_digit. intros H. split_tests; injection H as <-; lia.
Qed.

Lemma hex_digit_not_space (c : N) (v : Z) :
  hex_digit c = Some v -> is_space c = false.
Proof.
  intros H. apply hex_digit_range in H. destruct H as [[H1 H2] _].
  unfold is_space. split_tests; reflexivity.
Qed.

Lemma parseInt16_two_digits (hi lo : N) (vh vl : Z) :
  hex_digit hi = Some vh -> hex_digit lo = Some vl ->
  parseInt16 [hi; lo] = Some (16 * vh + vl)%Z.
Proof.
  intros Hh Hl.
  pose proof (hex_digit_not_space _ _ Hh) as Sh.
  destruct (hex_digit_range _ _ Hh) as [[H1 H2] [H3 H4]].
  destruct (hex_digit_range _ _ Hl) as [[L1 L2] [L3 L4]].
  unfold parseInt16. cbn -[Z.mul Z.add]. rewrite Sh.
  assert (E1 : (hi =? 45)%N = false) by (apply N.eqb_neq; lia).
  assert (E2 : (hi =? 43)%N = false) by (apply N.eqb_neq; lia).
  assert (E3 : (lo =? 120)%N = false) by (apply N.eqb_neq; lia).
  assert (E4 : (lo =? 88)%N = false) by (apply N.eqb_neq; lia).
  rewrite E1, E2. cbn -[Z.mul Z.add]. rewrite E3, E4, andb_false_r.
  cbn -[Z.mul Z.add]. rewrite Hh, Hl. cbn -[Z.mul Z.add]. f_equal. lia.
Qed.

Lemma remove_0x_keeps (c : N) (rest : jsstring) :
  c <> 48%N \/ no_x_first rest ->
  remove_0x (c :: rest) = c :: remove_0x rest.
Proof.
  intros H. destruct rest as [ | d rest']; [reflexivity | ].
  simpl. destruct (N.eqb_spec c 48); simpl; [ | reflexivity].
  destruct (N.eqb_spec d 120); [ | reflexivity].
  destruct H as [H | H]; [contradiction | simpl in H; contradiction].
Qed.

Lemma remove_spaces_app (a b : jsstring) :
  remove_spaces (a ++ b) = remove_spaces a ++ remove_spaces b.
Proof. apply filter_app. Qed.

Lemma remove_spaces_blank (s : jsstring) :
  Forall (fun c => is_space c = true) s -> remove_spaces s = [].
Proof.
  induction 1 as [ | c s Hc _ IH]; [reflexivity | ].
  simpl. rewrite Hc. exact IH.
Qed.

Lemma remove_spaces_items (items : list HexItem) :
  Forall well_written items ->
  remove_spaces (flat_map render_item items) = flat_map bare_item items.
Proof.
  induction 1 as [ | [[space prefix] [hi lo]] items [Hs [Hh Hl]] _ IH];
    [reflexivity | ].
  simpl. rewrite !remove_spaces_app, IH, (remove_spaces_blank _ Hs). simpl.
  destruct (hex_digit hi) as [vh | ] eqn:Eh; [ | contradiction].
  destruct (hex_digit lo) as [vl | ] eqn:El; [ | contradiction].
  f_equal. destruct prefix; simpl;
    rewrite (hex_digit_not_space _ _ Eh), (hex_digit_not_space _ _ El);
    reflexivity.
Qed.

Lemma bare_items_no_x_first (items : list HexItem) :
  Forall well_written items -> no_x_first (flat_map bare_item items).
Proof.
  intros H. destruct H as [ | [[space prefix] [hi lo]] items [Hs [Hh Hl]] _];
    [exact I | ].
  destruct prefix; simpl; [discriminate | ].
  destruct (hex_digit hi) as [vh | ] eqn:Eh; [ | contradiction].
  apply hex_digit_range in Eh. lia.
Qed.

Lemma remove_0x_items (items : list HexItem) :
  Forall well_written items ->
  remove_0x (flat_map bare_item items) = flat_map digits_of items.
Proof.
  induction 1 as [ | [[space prefix] [hi lo]] items [Hs [Hh Hl]] Hrest IH];
    [reflexivity | ].
  destruct (hex_digit hi) as [vh | ] eqn:Eh; [ | contradiction].
  destruct (hex_digit lo) as [vl | ] eqn:El; [ | contradiction].
  apply hex_digit_range in Eh, El.
  assert (D : remove_0x (hi :: lo :: flat_map bare_item items)
              = hi :: lo :: flat_map digits_of items).
  { rewrite remove_0x_keeps.
    - rewrite remove_0x_keeps, IH; [reflexivity | ].
      right. apply bare_items_no_x_first, Hrest.
    - right. simpl. lia. }
  destruct prefix; simpl; exact D.
Qed.

Lemma hex_pairs_items (items : list HexItem) :
  Forall well_written items ->
  hex_pairs (flat_map digits_of items) = Some (map item_value items).
Proof.
  induction 1 as [ | [[space prefix] [hi lo]] items [Hs [Hh Hl]] _ IH];
    [reflexivity | ].
  destruct (hex_digit hi) as [vh | ] eqn:Eh; [ | contradiction].
  destruct (hex_digit lo) as [vl | ] eqn:El; [ | contradiction].
  cbn [flat_map digits_of app map item_value hex_pairs].
  rewrite (parseInt16_two_digits _ _ _ _ Eh El), IH.
  unfold digit_value. rewrite Eh, El.
  apply hex_digit_range in Eh, El.
  rewrite Z.mod_small by lia. reflexivity.
Qed.

Lemma digits_of_even (items : list HexItem) :
  Nat.modulo (List.length (flat_map digits_of items)) 2 = 0.
Proof.
  induction items as [ | [[space prefix] [hi lo]] items IH]; [reflexivity | ].
  cbn [flat_map digits_of app List.length].
  change (S (S (List.length (flat_map digits_of items))))
    with (2 + List.length (flat_map digits_of items)).
  rewrite Nat.Div0.add_mod, IH. reflexivity.
Qed.

(** X15: [hexStringToBytes] reads every format its comment promises.  For any
    sequence of bytes written as two digits each (upper or lower case), each
    with or without white space in front and with or without the prefix [0x],
    and with any white space at the end, it returns exactly those bytes, in
    order: "01 02 03", "0x01 0x02 0x03" and "010203" all give 1, 2, 3. *)
Theorem hexStringToBytes_reads_the_documented_formats
    (items : list HexItem) (trailing : jsstring) :
  Forall well_written items ->
  Forall (fun c => is_space c = true) trailing ->
  hexStringToBytes (flat_map render_item items ++ trailing)
  = Some (map item_value items).
Proof.
  intros Hi Ht. unfold hexStringToBytes.
  rewrite remove_spaces_app, (remove_spaces_blank _ Ht), app_nil_r.
  rewrite (remove_spaces_items _ Hi), (remove_0x_items _ Hi).
  rewrite digits_of_even. simpl. apply hex_pairs_items, Hi.
Qed.

Lemma hexStringToBytes_reads_the_documented_formats_witness :
  hexStringToBytes (units "01 0x0A  ff" ++ [10%N])
  = Some [1%Z; 10%Z; 255%Z].
Proof.
  apply (hexStringToBytes_reads_the_documented_formats
           [([], false, (48%N, 49%N));
            ([32%N], true, (48%N, 65%N));
            ([32%N; 32%N], false, (102%N, 102%N))]
           [10%N]).
  - repeat constructor; discriminate.
  - repeat constructor.
Defined.

Lemma pairs_ind (P : jsstring -> Prop) :
  P [] -> (forall c, P [c]) -> (forall c d rest, P rest -> P (c :: d :: rest)) ->
  forall s, P s.
Proof.
  intros H0 H1 H2 s.
  assert (H : P s /\ forall c, P (c :: s)).
  { induction s as [ | d s [IHs IHc]]; [split; auto | ].
    split; [apply IHc | ]. intros c. apply H2, IHs. }
  apply H.
Qed.

Lemma hex_pairs_bytes (s : jsstring) (bytes : list Z) :
  hex_pairs s = Some bytes ->
  Forall (fun b => 0 <= b < 256)%Z bytes /\
  List.length bytes = Nat.div2 (S (List.length s)).
Proof.
  revert bytes. induction s as [ | c | c d rest IH] using pairs_ind; intros bytes E.
  - injection E as <-. split; [constructor | reflexivity].
  - cbn [hex_pairs] in E. destruct (parseInt16 [c]) as [v | ]; [ | discriminate].
    injection E as <-. split; [ | reflexivity].
    constructor; [apply Z.mod_pos_bound; lia | constructor].
  - cbn [hex_pairs] in E. destruct (parseInt16 [c; d]) as [v | ]; [ | discriminate].
    destruct (hex_pairs rest) as [bs | ]; [ | discriminate].
    injection E as <-. destruct (IH bs eq_refl) as [F L]. split.
    + constructor; [apply Z.mod_pos_bound; lia | exact F].
    + cbn [List.length]. rewrite L. reflexivity.
Qed.

Lemma div2_padded (n : nat) :
  Nat.div2 (S (if Nat.eqb (Nat.modulo n 2) 0 then n else S n)) = Nat.div2 (S n).
Proof.
  assert (H : forall m,
             (Nat.div2 (S (if Nat.eqb (Nat.modulo m 2) 0 then m else S m))
              = Nat.div2 (S m)) /\
             (Nat.div2 (S (if Nat.eqb (Nat.modulo (S m) 2) 0 then S m else S (S m)))
              = Nat.div2 (S (S m)))).
  { induction m as [ | m [IH1 IH2]]; [split; reflexivity | ].
    split; [exact IH2 | ].
    replace (Nat.modulo (S (S m)) 2) with (Nat.modulo m 2)
      by (replace (S (S m)) with (m + 1 * 2) by lia;
          symmetry; apply Nat.Div0.mod_add).
    destruct (Nat.eqb (Nat.modulo m 2) 0);
      cbn [Nat.div2] in IH1 |- *; rewrite ?IH1; reflexivity. }
  apply H.
Qed.

(** X16: when [hexStringToBytes] returns, every element is a byte (0 to 255)
    and there is one for every two code units left once white space and [0x]
    are removed, an odd one counting as two (a zero is put in front). *)
Theorem hexStringToBytes_bytes (hex : jsstring) (bytes : list Z) :
  hexStringToBytes hex = Some bytes ->
  Forall (fun b => 0 <= b < 256)%Z bytes /\
  List.length bytes
  = Nat.div2 (S (List.length (remove_0x (remove_spaces hex)))).
Proof.
  unfold hexStringToBytes. intros E.
  apply hex_pairs_bytes in E. destruct E as [F L]. split; [exact F | ].
  rewrite L. clear.
  set (n := List.length (remove_0x (remove_spaces hex))).
  rewrite <- (div2_padded n).
  destruct (Nat.eqb (Nat.modulo n 2) 0); reflexivity.
Qed.

Lemma hexStringToBytes_bytes_witness :
  hexStringToBytes (units "0x1 23") = Some [1%Z; 35%Z] /\
  List.length [1%Z; 35%Z] = 2.
Proof.
  split; [reflexivity | ].
  exact (proj2 (hexStringToBytes_bytes (units "0x1 23") [1%Z; 35%Z] eq_refl)).
Defined.

(** X17: [hexStringToBytes] does not reject every text that is no hexadecimal
    number, for [parseInt] reads the digits in front and drops the rest.  A
    digit followed by a code unit that is no digit, no white space and no [x]
    or [X] is read as the one-digit byte ("1g" gives 1), and such a code unit
    alone is read as 0 ("g" gives 0, through the zero put in front). *)
Theorem hexStringToBytes_is_lenient (d c : N) (v : Z) :
  hex_digit d = Some v ->
  hex_digit c = None ->
  is_space c = false ->
  c <> 120%N -> c <> 88%N ->
  hexStringToBytes [d; c] = Some [v] /\
  hexStringToBytes [c] = Some [0%Z].
Proof.
  intros Hd Hc Sc Cx CX.
  pose proof (hex_digit_not_space _ _ Hd) as Sd.
  destruct (hex_digit_range _ _ Hd) as [[D1 D2] [_ V]].
  assert (E1 : (d =? 45)%N = false) by (apply N.eqb_neq; lia).
  assert (E2 : (d =? 43)%N = false) by (apply N.eqb_neq; lia).
  assert (E3 : (c =? 120)%N = false) by (apply N.eqb_neq; assumption).
  assert (E4 : (c =? 88)%N = false) by (apply N.eqb_neq; assumption).
  unfold hexStringToBytes, remove_spaces. cbn [filter]. rewrite Sd, Sc.
  cbn [negb]. split.
  - cbn [remove_0x]. rewrite E3, andb_false_r.
    cbn [List.length Nat.modulo Nat.eqb Nat.divmod fst snd Nat.sub hex_pairs].
    unfold parseInt16. cbn [skip_spaces]. rewrite Sd, E1, E2.
    cbn [snd fst]. rewrite E3, E4, andb_false_r.
    cbn [leading_digits]. rewrite Hd, Hc. cbn [fold_left].
    rewrite Z.mod_small by lia. f_equal. f_equal. lia.
  - cbn [remove_0x List.length Nat.modulo Nat.eqb Nat.divmod fst snd Nat.sub
         hex_pairs].
    unfold parseInt16. cbn [skip_spaces is_space]. 
    change (is_space 48%N) with false. cbn [N.eqb Pos.eqb snd fst].
    rewrite E3, E4. cbn [orb andb leading_digits].
    change (hex_digit 48%N) with (Some 0%Z). rewrite Hc. reflexivity.
Qed.

Lemma hexStringToBytes_is_lenient_witness :
  hexStringToBytes (units "1g") = Some [1%Z] /\
  hexStringToBytes (units "g") = Some [0%Z].
Proof.
  apply (hexStringToBytes_is_lenient 49%N 103%N 1%Z);
    first [reflexivity | discriminate].
Defined.

(** X18: [hexStringToBytes] accepts a sign for a digit.  A minus and a digit
    [v] give the byte [256 - v] modulo 256 ("-1" gives 255), as the negative
    number wraps when stored; a plus and a digit give the digit. *)
Theorem hexStringToBytes_reads_a_sign (d : N) (v : Z) :
  hex_digit d = Some v ->
  hexStringToBytes [45%N; d] = Some [((256 - v) mod 256)%Z] /\
  hexStringToBytes [43%N; d] = Some [v].
Proof.
  intros Hd.
  pose proof (hex_digit_not_space _ _ Hd) as Sd.
  destruct (hex_digit_range _ _ Hd) as [[D1 D2] [_ V]].
  unfold hexStringToBytes, remove_spaces. cbn [filter].
  change (is_space 45%N) with false. change (is_space 43%N) with false.
  rewrite Sd. cbn [negb remove_0x N.eqb Pos.eqb andb].
  cbn [List.length Nat.modulo Nat.eqb Nat.divmod fst snd Nat.sub hex_pairs].
  unfold parseInt16. cbn [skip_spaces].
  change (is_space 45%N) with false. change (is_space 43%N) with false.
  cbn [N.eqb Pos.eqb snd fst leading_digits]. rewrite Hd. cbn [fold_left].
  split; f_equal; f_equal.
  - replace (-1 * (16 * 0 + v))%Z with (256 - v + (-1) * 256)%Z by lia.
    apply Z.mod_add. lia.
  - rewrite Z.mod_small by lia. lia.
Qed.

Lemma hexStringToBytes_reads_a_sign_witness :
  hexStringToBytes (units "-1") = Some [255%Z] /\
  hexStringToBytes (units "+1") = Some [1%Z].
Proof.
  apply (hexStringToBytes_reads_a_sign 49%N 1%Z). reflexivity.
Defined.

Lemma remove_0x_without_zero (s : jsstring) :
  Forall (fun c => c <> 48%N) s -> remove_0x s = s.
Proof.
  induction 1 as [ | c s Hc _ IH]; [reflexivity | ].
  rewrite remove_0x_keeps by (left; exact Hc). rewrite IH. reflexivity.
Qed.

Lemma parseInt16_no_digit (c d : N) :
  hex_digit c = None -> hex_digit d = None -> is_space c = false ->
  parseInt16 [c; d] = None.
Proof.
  intros Hc Hd Sc. unfold parseInt16. cbn [skip_spaces]. rewrite Sc.
  assert (Z0 : (c =? 48)%N = false).
  { apply N.eqb_neq. intros ->. discriminate Hc. }
  destruct (N.eqb_spec c 45) as [-> | N1]; cbn [snd fst].
  - cbn [leading_digits]. rewrite Hd. reflexivity.
  - destruct (N.eqb_spec c 43) as [-> | N2]; cbn [snd fst].
    + cbn [leading_digits]. rewrite Hd. reflexivity.
    + rewrite Z0. cbn [andb leading_digits]. rewrite Hc. reflexivity.
Qed.

(** X19: [hexStringToBytes] throws on a text that has no hexadecimal digit at
    all, is not blank, and has an even number of code units that are not
    white space. *)
Theorem hexStringToBytes_rejects_text_without_digits (hex : jsstring) :
  Forall (fun c => hex_digit c = None) hex ->
  remove_spaces hex <> [] ->
  Nat.modulo (List.length (remove_spaces hex)) 2 = 0 ->
  hexStringToBytes hex = None.
Proof.
  intros Hn Hne Hev. unfold hexStringToBytes.
  assert (F : Forall (fun c => hex_digit c = None /\ is_space c = false)
                     (remove_spaces hex)).
  { unfold remove_spaces. apply Forall_forall. intros c Hin.
    apply filter_In in Hin. destruct Hin as [Hin Hs].
    rewrite Forall_forall in Hn. split; [apply Hn, Hin | ].
    destruct (is_space c); [discriminate | reflexivity]. }
  rewrite remove_0x_without_zero.
  - rewrite Hev. cbn [Nat.eqb].
    destruct (remove_spaces hex) as [ | c [ | d rest]].
    + contradiction.
    + discriminate Hev.
    + inversion F as [ | ? ? [Hc Sc] F']; subst.
      inversion F' as [ | ? ? [Hd _] _]; subst.
      cbn [hex_pairs]. rewrite (parseInt16_no_digit _ _ Hc Hd Sc). reflexivity.
  - eapply Forall_impl; [ | exact F]. intros c [Hc _] ->. discriminate Hc.
Qed.

Lemma hexStringToBytes_rejects_text_without_digits_witness :
  hexStringToBytes (units "zz to") = None.
Proof.
  apply (hexStringToBytes_rejects_text_without_digits (units "zz to")).
  - repeat constructor.
  - discriminate.
  - reflexivity.
Defined.

Lemma slice_last_short {T} (n : nat) (l : list T) :
  List.length l <= n -> slice_last n l = l.
Proof.
  intros H. unfold slice_last.
  replace (List.length l - n) with 0 by lia. reflexivity.
Qed.

Lemma slice_last_snoc {T} (n : nat) (l : list T) (x : T) :
  slice_last (S n) (slice_last (S n) l ++ [x]) = slice_last (S n) (l ++ [x]).
Proof.
  destruct (Nat.le_gt_cases (List.length l) (S n)) as [H | H].
  - rewrite (slice_last_short _ _ H). reflexivity.
  - unfold slice_last. rewrite !length_app, length_skipn. cbn [List.length].
    rewrite !skipn_app, skipn_skipn, length_skipn.
    replace (List.length l - (List.length l - S n) + 1 - S n) with 1 by lia.
    replace (1 - (List.length l - (List.length l - S n))) with 0 by lia.
    replace (List.length l + 1 - S n - List.length l) with 0 by lia.
    replace (1 + (List.length l - S n)) with (List.length l + 1 - S n) by lia.
    reflexivity.
Qed.

(** X20: after any sequence of [serial:data] events, starting from the empty
    display, [receivedData] holds the decoded texts of the last 100 events (of
    all of them when there were fewer), oldest first. *)
Theorem receivedData_is_the_last_hundred {T} (decode : list Z -> T)
    (datas : list (list Z)) :
  fold_left (onSerialData decode) datas [] = slice_last 100 (map decode datas) /\
  List.length (fold_left (onSerialData decode) datas []) <= 100.
Proof.
  assert (E : fold_left (onSerialData decode) datas []
              = slice_last 100 (map decode datas)).
  { induction datas as [ | data datas IH] using rev_ind; [reflexivity | ].
    rewrite fold_left_app, map_app. cbn [fold_left map]. rewrite IH.
    unfold onSerialData. apply slice_last_snoc. }
  split; [exact E | ].
  rewrite E. unfold slice_last. rewrite length_skipn. lia.
Qed.
